(** * The questions plugin: a shallow embedding of [questions/questions.py]

    The plugin interviews the recipient of a freshly opened thread
    ([Questions.on_thread_ready]) and lets a moderator configure the
    interview ([configquestions], [configoutro], [configintro]).

    The coroutines are embedded in a state-and-exception monad over a
    [world] that holds the plugin's database partition, the outcomes of
    the successive [bot.wait_for] calls, the thread channel and the
    chronological trace of every call made on a collaborator. *)

From Stdlib Require Import ZArith Ascii String DecimalString.
From stdpp Require Import gmap strings list fin_maps.

Local Open Scope Z_scope.

(** ** Python primitives used by the plugin *)

(** A Python [str] is a [string]; each [ascii] stands for the code point
    of the same number, so the model covers the texts whose code points
    are below 256. *)
Module Py.

Definition code (c : ascii) : Z := Z.of_N (N_of_ascii c).

Definition between (lo hi : Z) (c : ascii) : bool :=
  (lo <=? code c) && (code c <=? hi).

(** [str.isspace] on one character: TAB..CR, FS..US, space, NEL, NBSP. *)
Definition isspace (c : ascii) : bool :=
  between 9 13 c || between 28 32 c || (code c =? 133) || (code c =? 160).

Fixpoint lstrip (s : string) : string :=
  match s with
  | String c s' => if isspace c then lstrip s' else s
  | EmptyString => EmptyString
  end.

Fixpoint rstrip (s : string) : string :=
  match s with
  | EmptyString => EmptyString
  | String c s' =>
      match rstrip s' with
      | EmptyString => if isspace c then EmptyString else String c EmptyString
      | r => String c r
      end
  end.

(** [s.strip()] *)
Definition strip (s : string) : string := rstrip (lstrip s).

(** Truth value of a [str]: non-empty. *)
Definition bool_str (s : string) : bool :=
  match s with EmptyString => false | String _ _ => true end.

(** Whitespace as [int()] sees it: the C-locale blanks, and the two
    non-ASCII blanks, which [int()] first rewrites to a space. *)
Definition int_isspace (c : ascii) : bool :=
  between 9 13 c || (code c =? 32) || (code c =? 133) || (code c =? 160).

Definition digit_value (c : ascii) : option Z :=
  if between 48 57 c then Some (code c - 48) else None.

Fixpoint skip_space (s : string) : string :=
  match s with
  | String c s' => if int_isspace c then skip_space s' else s
  | EmptyString => EmptyString
  end.

(** The digit scanner of [int()]: decimal digits, single underscores
    between them.  Returns the value, the number of digits and the
    unread rest; [None] on a doubled or a trailing underscore. *)
Fixpoint scan_digits (acc : Z) (digits : nat) (prev_underscore : bool)
    (s : string) : option (Z * nat * string) :=
  match s with
  | String c s' =>
      if Ascii.eqb c "_" then
        if prev_underscore then None else scan_digits acc digits true s'
      else
        match digit_value c with
        | Some d => scan_digits (10 * acc + d) (S digits) false s'
        | None => if prev_underscore then None else Some (acc, digits, s)
        end
  | EmptyString =>
      if prev_underscore then None else Some (acc, digits, EmptyString)
  end.

Definition split_sign (s : string) : Z * string :=
  match s with
  | String "+" s' => (1, s')
  | String "-" s' => (-1, s')
  | _ => (1, s)
  end.

(** [int(s)] for a [str] in base 10; [None] stands for [ValueError].
    (The limit on the number of digits is far above the length of a
    message and is left out.) *)
Definition int (s : string) : option Z :=
  let '(sign, body) := split_sign (skip_space s) in
  match body with
  | String "_" _ => None
  | _ =>
      match scan_digits 0 0 false body with
      | Some (v, S _, rest) =>
          match skip_space rest with
          | EmptyString => Some (sign * v)
          | String _ _ => None
          end
      | _ => None
      end
  end.

(** [str(n)] for an [int].  (The limit on the number of digits, which
    makes [str] raise beyond 4300 of them, is left out: the plugin
    prints channel ids and loop indices only.) *)
Definition str (n : Z) : string := NilZero.string_of_int (Z.to_int n).

End Py.

(** ** Data model *)

(** Values stored in a configuration document: the plugin writes texts
    ([intro], [outro], [move_to]) and a list of texts ([questions]). *)
Inductive pyobj :=
| PStr (s : string)
| PList (l : list string).

(** Truth value of a stored object. *)
Definition bool_obj (v : pyobj) : bool :=
match v with
| PStr s => Py.bool_str s
| PList l => match l with [] => false | _ :: _ => true end
end.

(** Truth value of [config.get(key)], where a missing key gives [None]. *)
Definition truthy (o : option pyobj) : bool :=
match o with
| Some v => bool_obj v
| None => false
end.

(** [for question in v]: a list yields its items, a text its characters. *)
Definition iter (v : pyobj) : list string :=
match v with
| PList l => l
| PStr s => (fun c => String c EmptyString) <$> list_ascii_of_string s
end.

Record asset := { asset_url : string }.

Record user := { name : string; avatar : option asset }.

Record attachment := { filename : string; url : string }.

Record message := {
  content : string;
  attachments : list attachment;
  author : user
}.

Record channel := { id : Z }.

Record embed_field := { field_name : string; field_value : string; inline : bool }.

Record embed_author := { author_name : string; icon_url : string }.

Record embed := {
  color : Z;
  timestamp : Z;
  fields : list embed_field;
  embed_by : option embed_author
}.

(** [embed.add_field(name=k, value=v, inline=i)] *)
Definition add_field (e : embed) (k v : string) (i : bool) : embed :=
{| color := color e; timestamp := timestamp e;
   fields := fields e ++ [{| field_name := k; field_value := v; inline := i |}];
   embed_by := embed_by e |}.

(** [embed.set_author(name=n, icon_url=u)] *)
Definition set_author (e : embed) (n u : string) : embed :=
{| color := color e; timestamp := timestamp e; fields := fields e;
   embed_by := Some {| author_name := n; icon_url := u |} |}.

(** The [responses] dict of [on_thread_ready]: a Python dict keeps its
    keys in insertion order, and assigning to a key that is already
    there replaces the value and keeps the key's place. *)
Abbreviation dict := (list (string * string)).

Fixpoint dict_set (d : dict) (k v : string) : dict :=
match d with
| [] => [(k, v)]
| (k', v') :: d' =>
    if String.eqb k' k then (k', v) :: d' else (k', v') :: dict_set d' k v
end.

(** ** Collaborators and the world *)

(** Every call on a collaborator, in the order the calls are made. *)
Inductive effect :=
| ThreadReply (by_ : user) (text : pyobj)
| ThreadClose (closer : user) (reason : string)
| Sleep (seconds : Z)
| ChannelSend (e : embed)
| Pin (e : embed)
| LogWarning (text : string)
| ChannelEdit (category : channel) (sync_permissions : bool)
| CtxSend (text : string)
| DbSet (key : string) (set : list (string * pyobj)).

Record world := {
  db : gmap string (gmap string pyobj);
  inbox : list (option message);
  trace : list effect;
  thread_category : option channel;
  permissions_synced : bool
}.

Definition emit (e : effect) (w : world) : world :=
{| db := db w; inbox := inbox w; trace := trace w ++ [e];
   thread_category := thread_category w;
   permissions_synced := permissions_synced w |}.

Definition with_inbox (i : list (option message)) (w : world) : world :=
{| db := db w; inbox := i; trace := trace w;
   thread_category := thread_category w;
   permissions_synced := permissions_synced w |}.

Definition with_db (d : gmap string (gmap string pyobj)) (w : world) : world :=
{| db := d; inbox := inbox w; trace := trace w;
   thread_category := thread_category w;
   permissions_synced := permissions_synced w |}.

Definition with_category (c : channel) (sync : bool) (w : world) : world :=
{| db := db w; inbox := inbox w; trace := trace w;
   thread_category := Some c;
   permissions_synced := if sync then true else permissions_synced w |}.

(** ** The monad of the coroutines *)

Inductive exn := TimeoutError | KeyError | ValueError | TypeError | AttributeError.

#[global] Instance exn_eq_dec : EqDecision exn.
Proof. solve_decision. Defined.

Inductive result (A : Type) :=
| Ok (a : A)
| Raise (e : exn).
Arguments Ok {A} a.
Arguments Raise {A} e.

Definition M (A : Type) : Type := world -> result A * world.

Definition ret {A} (a : A) : M A := fun w => (Ok a, w).

Definition raise {A} (e : exn) : M A := fun w => (Raise e, w).

Definition bind {A B} (c : M A) (k : A -> M B) : M B :=
fun w =>
  match c w with
  | (Ok a, w') => k a w'
  | (Raise e, w') => (Raise e, w')
  end.

(** [try: x = c / except e: handler / else: body] *)
Definition try_except {A B} (c : M A) (e : exn) (handler : M B) (body : A -> M B) : M B :=
fun w =>
  match c w with
  | (Ok a, w') => body a w'
  | (Raise e', w') =>
      if decide (e' = e) then handler w' else (Raise e', w')
  end.

Notation "'let*' x ':=' c 'in' k" := (bind c (fun x => k))
  (at level 10, x name, c at level 100, k at level 200).
Notation "c ';;' k" := (bind c (fun _ => k))
  (at level 100, k at level 200, right associativity).

Definition perform (e : effect) : M unit := fun w => (Ok tt, emit e w).

(** [bot.wait_for('message', check=..., timeout=1800)]: the next outcome
    of the inbox, a matching message or a timeout.  When the inbox holds
    no further outcome no message ever arrives and the wait times out. *)
Definition wait_for : M message :=
fun w =>
  match inbox w with
  | Some m :: rest => (Ok m, with_inbox rest w)
  | None :: rest => (Raise TimeoutError, with_inbox rest w)
  | [] => (Raise TimeoutError, w)
  end.

Definition wait_for_channel_response : M message := wait_for.

Definition wait_for_dm_response : M message := wait_for.

(** [self.db.find_one({'_id': key})] *)
Definition find_one (key : string) : M (option (gmap string pyobj)) :=
fun w => (Ok (db w !! key), w).

(** [{'$set': set}] applied to a document, field by field. *)
Definition apply_set (set : list (string * pyobj)) (doc : gmap string pyobj)
  : gmap string pyobj :=
foldl (fun d kv => <[kv.1 := kv.2]> d) doc set.

(** [self.db.find_one_and_update({'_id': key}, {'$set': set}, upsert=True)]:
    the matching document is patched; without one, a document made of
    the filter's [_id] and the patch is inserted. *)
Definition upsert (key : string) (set : list (string * pyobj))
  (d : gmap string (gmap string pyobj)) : gmap string (gmap string pyobj) :=
let doc := default {[ "_id" := PStr key ]} (d !! key) in
<[key := apply_set set doc]> d.

Definition find_one_and_update (key : string) (set : list (string * pyobj)) : M unit :=
fun w => (Ok tt, emit (DbSet key set) (with_db (upsert key set (db w)) w)).

(** [d[key]] on a dict *)
Definition getitem (d : gmap string pyobj) (key : string) : M pyobj :=
match d !! key with
| Some v => ret v
| None => raise KeyError
end.

(** [int(v)] on a stored object *)
Definition int_obj (v : pyobj) : M Z :=
match v with
| PStr s => match Py.int s with Some n => ret n | None => raise ValueError end
| PList _ => raise TypeError
end.

(** ** The interview: [Questions.on_thread_ready] *)

Definition no_content : string := "<No Message Content>".

Definition newline : string := String (ascii_of_nat 10) EmptyString.

(** Lines 71-75: the answer derived from a reply. *)
Definition attachment_line (a : attachment) : string :=
newline +:+ "`" +:+ filename a +:+ "`: " +:+ url a.

Definition answer_of (m : message) : string :=
let answer :=
  if Py.bool_str (Py.strip (content m)) then content m else no_content in
match attachments m with
| [] => answer
| _ :: _ => foldl (fun acc a => acc +:+ attachment_line a) (answer +:+ newline) (attachments m)
end.

Definition inactivity : string :=
  "Closed due to inactivity and not responding to questions.".

(** How the question loop ends: it runs off the end of the questions
    with the record and the last reply, or it returns from the handler
    of the timeout; [Aborted] keeps the record as it was at that
    [return], which the coroutine then drops. *)
Inductive loop_end :=
| Finished (responses : dict) (m : option message)
| Aborted (responses : dict).

Section Bot.

(** [bot.modmail_guild.me], [bot.main_color], [datetime.utcnow()] and
    [bot.get_channel]. *)
Variable me : user.
Variable main_color : Z.
Variable utcnow : Z.
Variable get_channel : Z -> option channel.

(** Lines 60-77. *)
Fixpoint ask_loop (questions : list string) (responses : dict) (m : option message)
  : M loop_end :=
match questions with
| [] => ret (Finished responses m)
| question :: rest =>
    perform (ThreadReply me (PStr question)) ;;
    try_except wait_for_dm_response TimeoutError
      (perform (ThreadClose me inactivity) ;;
       ret (Aborted responses))
      (fun m' =>
         ask_loop rest (dict_set responses question (answer_of m')) (Some m'))
end.

(** [u.get(key, default)] on the author of a message.  The author is
    a [discord.User] or a [discord.Member], and neither has an
    attribute [get]: looking the attribute up raises [AttributeError],
    whoever the user is and whatever the key. *)
Definition user_get (u : user) (key : string) : M asset :=
raise AttributeError.

(** Lines 79-85.  [m] is still [None] when the loop ran no round, and
    then [m.author] raises [AttributeError]; line 83 reads
    [m.author.name] and then [m.author.get("avatar", {}).url]. *)
Definition summarize (responses : dict) (m : option message) : M unit :=
perform (Sleep 1) ;;
let embed :=
  {| color := main_color; timestamp := utcnow; fields := []; embed_by := None |} in
let embed := foldl (fun e kv => add_field e kv.1 kv.2 false) embed responses in
let* last := match m with Some m => ret m | None => raise AttributeError end in
let author_name := name (author last) in
let* found := user_get (author last) "avatar" in
let embed := set_author embed author_name (asset_url found) in
perform (ChannelSend embed) ;;
perform (Pin embed).

(** Lines 91-95. *)
Definition relocate (config : gmap string pyobj) : M unit :=
let* raw := getitem config "move_to" in
let* target := int_obj raw in
match get_channel target with
| None => perform (LogWarning "Move-to category does not exist. Not moving.")
| Some move_to =>
    fun w => (Ok tt, emit (ChannelEdit move_to true) (with_category move_to true w))
end.

(** [config.get(key)] sent as a reply when it is set and true. *)
Definition reply_if_set (config : gmap string pyobj) (key : string) : M unit :=
match config !! key with
| Some v => if bool_obj v then perform (ThreadReply me v) else ret tt
| None => ret tt
end.

(** Lines 46-95.  [q_message] is the dummy copy of the initial message
    with [me] as its author; every [thread.reply(q_message)] is recorded
    with that author and the content the message then has.  The
    coroutine's arguments other than the thread are not read. *)
Definition on_thread_ready : M unit :=
let* found := find_one "config" in
let config := default ∅ found in
let responses : dict := [] in
if negb (truthy (config !! "questions")) then ret tt
else
  let m : option message := None in
  reply_if_set config "intro" ;;
  let* questions := getitem config "questions" in
  let* ended := ask_loop (iter questions) responses m in
  match ended with
  | Aborted _ => ret tt
  | Finished responses m =>
      summarize responses m ;;
      reply_if_set config "outro" ;;
      relocate config
  end.

End Bot.

(** ** The configuration commands *)

(** How a command's inner loop ends: with the collected questions, or
    by a [return] out of the command. *)
Inductive collected :=
| Collected (questions : list string)
| Returned.

(** Lines 116-124: [for i in range(1, count + 1)], with [todo] the
    number of iterations left and [i] the current index. *)
Fixpoint question_loop (todo : nat) (i : Z) (questions : list string) : M collected :=
match todo with
| O => ret (Collected questions)
| S todo' =>
    perform (CtxSend ("What's question #" +:+ Py.str i +:+ "?")) ;;
    try_except wait_for_channel_response TimeoutError
      (perform (CtxSend "Timed out.") ;; ret Returned)
      (fun m =>
         if negb (Py.bool_str (content m)) then
           perform (CtxSend "Question must be text-only.") ;; ret Returned
         else question_loop todo' (i + 1) (questions ++ [content m]))
end.

(** The number of items of [range(1, count + 1)]. *)
Definition range_len (count : Z) : nat := Z.to_nat count.

Definition configquestions (move_to : channel) : M unit :=
let questions : list string := [] in
perform (CtxSend "How many questions do you have?") ;;
try_except wait_for_channel_response TimeoutError
  (perform (CtxSend "Timed out."))
  (fun m =>
     match Py.int (content m) with
     | None => perform (CtxSend "Invalid input.")
     | Some count =>
         let* got := question_loop (range_len count) 1 questions in
         match got with
         | Returned => ret tt
         | Collected questions =>
             find_one_and_update "config"
               [("questions", PList questions); ("move_to", PStr (Py.str (id move_to)))] ;;
             perform (CtxSend "Saved")
         end
     end).

(** [configoutro] and [configintro] differ in the prompt, the complaint
    and the field they set. *)
Definition config_text (prompt complaint field : string) (move_to : channel) : M unit :=
perform (CtxSend prompt) ;;
try_except wait_for_channel_response TimeoutError
  (perform (CtxSend "Timed out."))
  (fun m =>
     if negb (Py.bool_str (content m)) then perform (CtxSend complaint)
     else
       let text := content m in
       find_one_and_update "config"
         [(field, PStr text); ("move_to", PStr (Py.str (id move_to)))] ;;
       perform (CtxSend "Saved")).

Definition configoutro : channel -> M unit :=
config_text "Type the outro you want" "Outro must be text-only." "outro".

Definition configintro : channel -> M unit :=
config_text "Type the intro you want" "Intro must be text-only." "intro".

(** ** Sample data *)

Definition world0 (d : gmap string (gmap string pyobj)) (i : list (option message)) : world :=
{| db := d; inbox := i; trace := []; thread_category := None;
   permissions_synced := false |}.

Definition alice : user :=
{| name := "alice"; avatar := Some {| asset_url := "https://cdn/alice.png" |} |}.

Definition bot_user : user := {| name := "modmail"; avatar := None |}.

Definition text_msg (s : string) : message :=
{| content := s; attachments := []; author := alice |}.

Definition a_png : attachment := {| filename := "a.png"; url := "https://cdn/a.png" |}.

Definition config_doc (qs : list string) (move_to : string) : gmap string pyobj :=
<["questions" := PList qs]> (<["move_to" := PStr move_to]> {[ "_id" := PStr "config" ]}).

Definition one_db (doc : gmap string pyobj) : gmap string (gmap string pyobj) :=
{[ "config" := doc ]}.

Definition channels (n : Z) : option channel :=
if n =? 42 then Some {| id := 42 |} else None.

Definition two_questions : list string := ["Name?"; "Why?"].

Definition sample_config (move_to : string) : gmap string pyobj :=
<["outro" := PStr "Thanks."]>
  (<["intro" := PStr "Hello."]> (config_doc two_questions move_to)).

Definition picture_msg : message :=
{| content := ""; attachments := [a_png]; author := alice |}.

Definition sample_world (move_to : string) (i : list (option message)) : world :=
world0 (one_db (sample_config move_to)) i.

Definition bob : user := {| name := "bob"; avatar := None |}.

Definition bob_msg (s : string) : message :=
{| content := s; attachments := []; author := bob |}.

Definition lobby : channel := {| id := 42 |}.

(** ** Vocabulary of the statements *)

(** The world after the calls [es] have been made. *)
Definition emits (es : list effect) (w : world) : world :=
{| db := db w; inbox := inbox w; trace := trace w ++ es;
   thread_category := thread_category w;
   permissions_synced := permissions_synced w |}.

(** The record after the exchanges [qas], starting from [d]. *)
Definition record_of (qas : list (string * message)) (d : dict) : dict :=
foldl (fun d qa => dict_set d qa.1 (answer_of qa.2)) d qas.

(** The reply held in [m] after the replies [ms]. *)
Definition last_reply (m : option message) (ms : list message) : option message :=
foldl (fun _ x => Some x) m ms.

(** The questions [qs] sent in order. *)
Definition asked (me : user) (qs : list string) : list effect :=
(fun q => ThreadReply me (PStr q)) <$> qs.

(** The intro or outro of [config], when there is one to send. *)
Definition said (me : user) (config : gmap string pyobj) (key : string) : list effect :=
match config !! key with
| Some v => if bool_obj v then [ThreadReply me v] else []
| None => []
end.

(** The keys of a record, in order. *)
Definition keys (d : dict) : list string := d.*1.

(** The calls the question loop makes. *)
Definition thread_call (e : effect) : Prop :=
match e with
| ThreadReply _ _ | ThreadClose _ _ => True
| _ => False
end.

(** The prompts of [todo] rounds of the question loop, from index [i]. *)
Definition prompts (i : Z) (todo : nat) : list effect :=
(fun j => CtxSend ("What's question #" +:+ Py.str j +:+ "?"))
  <$> seqZ i (Z.of_nat todo).

(** The calls that only talk to the operator. *)
Definition ctx_call (e : effect) : Prop :=
match e with
| CtxSend _ => True
| _ => False
end.

(** What a command persists on success. *)
Definition questions_set (questions : list string) (move_to : channel)
  : list (string * pyobj) :=
[("questions", PList questions); ("move_to", PStr (Py.str (id move_to)))].

Definition text_set (field text : string) (move_to : channel)
  : list (string * pyobj) :=
[(field, PStr text); ("move_to", PStr (Py.str (id move_to)))].

(** The world after a command has made the calls [before], persisted
    [set] under [key] and confirmed, with [rest] left in the inbox. *)
Definition saved (key : string) (set : list (string * pyobj))
  (before : list effect) (rest : list (option message)) (w : world) : world :=
with_inbox rest
  (emits (before ++ [DbSet key set; CtxSend "Saved"])
     (with_db (upsert key set (db w)) w)).

(** [d'] keeps every document of [d], and in each of them every field
    that is not among [written]. *)
Definition preserves (written : list string)
  (d d' : gmap string (gmap string pyobj)) : Prop :=
∀ key doc, d !! key = Some doc →
  ∃ doc', d' !! key = Some doc'
    ∧ ∀ field, field ∉ written → doc' !! field = doc !! field.

(** The texts of [qs] without repeats, each at the place where it
    first occurs. *)
Fixpoint distinct (qs : list string) : list string :=
match qs with
| [] => []
| q :: qs' => q :: filter (fun q' => q' ≠ q) (distinct qs')
end.

(** [d.get(k)] on a record. *)
Fixpoint dict_get (d : dict) (k : string) : option string :=
match d with
| [] => None
| (k', v) :: d' => if String.eqb k' k then Some v else dict_get d' k
end.

(** The calls on the thread, its channel and the log: everything but
    the database and the operator's channel. *)
Definition interview_call (e : effect) : Prop :=
match e with
| DbSet _ _ | CtxSend _ => False
| _ => True
end.

(** The questions the interview of world [w] asks. *)
Definition configured_questions (w : world) : list string :=
match db w !! "config" with
| Some config =>
    match config !! "questions" with
    | Some questions => if bool_obj questions then iter questions else []
    | None => []
    end
| None => []
end.

(** The three ways through [on_thread_ready]: nothing to ask; a wait
    that times out; and every question answered, where the Summarize
    step raises. *)
Inductive interview_path (me : user) (w : world) : result unit → world → Prop :=
| path_disabled :
    truthy (default ∅ (db w !! "config") !! "questions") = false →
    interview_path me w (Ok tt) w
| path_aborted config questions ms tail :
    db w !! "config" = Some config →
    config !! "questions" = Some questions → bool_obj questions = true →
    (length ms < length (iter questions))%nat →
    inbox w = (Some <$> ms) ++ tail →
    head tail = None ∨ head tail = Some None →
    interview_path me w (Ok tt)
      (with_inbox (drop 1 tail)
         (emits (said me config "intro"
                 ++ asked me (take (S (length ms)) (iter questions))
                 ++ [ThreadClose me inactivity]) w))
| path_answered config questions ms rest :
    db w !! "config" = Some config →
    config !! "questions" = Some questions → bool_obj questions = true →
    length ms = length (iter questions) →
    inbox w = (Some <$> ms) ++ rest →
    interview_path me w (Raise AttributeError)
      (with_inbox rest
         (emits (said me config "intro" ++ asked me (iter questions) ++ [Sleep 1]) w)).

(** Every character of [s] is white space. *)
Definition blank (s : string) : Prop :=
Forall (fun c => Py.isspace c = true) (list_ascii_of_string s).

(** ** Worlds *)

Lemma world_ext (w1 w2 : world) :
  db w1 = db w2 → inbox w1 = inbox w2 → trace w1 = trace w2 →
  thread_category w1 = thread_category w2 →
  permissions_synced w1 = permissions_synced w2 → w1 = w2.
Proof. destruct w1, w2; simpl; intros; by subst. Qed.

Ltac same_world :=
  apply world_ext; simpl; rewrite ?app_nil_r, <- ?app_assoc; simpl; try done.

Lemma emits_nil w : emits [] w = w.
Proof. same_world. Qed.

Lemma emits_emits es1 es2 w : emits es2 (emits es1 w) = emits (es1 ++ es2) w.
Proof. same_world. Qed.

Lemma emit_emits e w : emit e w = emits [e] w.
Proof. done. Qed.

(** ** The record *)

Lemma dict_set_fresh (d : dict) k v :
  k ∉ keys d → dict_set d k v = d ++ [(k, v)].
Proof.
  induction d as [|[k' v'] d IH]; simpl; [done|].
  intros Hk. apply not_elem_of_cons in Hk as [Hne Hk].
  destruct (String.eqb_spec k' k) as [->|_]; [done|].
  by rewrite IH.
Qed.

Lemma dict_set_keys_present (d : dict) k v :
  k ∈ keys d → keys (dict_set d k v) = keys d.
Proof.
  induction d as [|[k' v'] d IH]; simpl.
  - by intros ?%elem_of_nil.
  - intros Hk. destruct (String.eqb_spec k' k) as [->|Hne]; [done|].
    simpl. f_equal. apply IH.
    apply elem_of_cons in Hk as [->|Hk]; done.
Qed.

Lemma dict_set_length (d : dict) k v :
  length (dict_set d k v) = if decide (k ∈ keys d) then length d else S (length d).
Proof.
  case_decide as Hk.
  - rewrite <- (length_fmap fst), <- (length_fmap fst d).
    f_equal. by apply dict_set_keys_present.
  - rewrite dict_set_fresh by done. rewrite length_app. simpl. lia.
Qed.

Lemma record_of_distinct qs : ∀ (ms : list message) (d : dict),
  length ms = length qs → NoDup (keys d ++ qs) →
  record_of (zip qs ms) d = d ++ zip qs (answer_of <$> ms).
Proof.
  induction qs as [|q qs IH]; intros [|m ms] d Hlen Hnd; simplify_eq/=.
  - by rewrite app_nil_r.
  - unfold record_of in *. simpl.
    apply NoDup_app in Hnd as (Hd & Hsep & Hqs).
    apply NoDup_cons in Hqs as [Hq Hqs].
    rewrite dict_set_fresh by (intros Hin; eapply Hsep; [done|left]).
    rewrite IH; [by rewrite <- app_assoc|done|].
    unfold keys. rewrite fmap_app. simpl.
    apply NoDup_app. split_and!.
    + apply NoDup_app. split_and!; [done| |apply NoDup_singleton].
      intros x Hx ->%list_elem_of_singleton. eapply Hsep; [done|left].
    + intros x [Hx| ->%list_elem_of_singleton]%elem_of_app Hx'; [|done].
      eapply Hsep; [done|by right].
    + done.
Qed.

(** ** The question loop *)

Section Interview.

Variable me : user.
Variable main_color : Z.
Variable utcnow : Z.
Variable get_channel : Z -> option channel.

(** One round of the loop whose reply arrives. *)
Lemma ask_loop_reply q qs d m m' rest w :
  inbox w = Some m' :: rest →
  ask_loop me (q :: qs) d m w =
  ask_loop me qs (dict_set d q (answer_of m')) (Some m')
    (with_inbox rest (emit (ThreadReply me (PStr q)) w)).
Proof.
  intros Hin. simpl.
  unfold bind, perform, try_except, wait_for_dm_response, wait_for. simpl.
  by rewrite Hin.
Qed.

(** One round of the loop whose wait times out. *)
Lemma ask_loop_timeout q qs d m tail w :
  inbox w = tail → head tail = None ∨ head tail = Some None →
  ask_loop me (q :: qs) d m w =
  (Ok (Aborted d),
   with_inbox (drop 1 tail)
     (emits [ThreadReply me (PStr q); ThreadClose me inactivity] w)).
Proof.
  intros Hin Hhd. simpl.
  unfold bind, perform, try_except, wait_for_dm_response, wait_for, ret. simpl.
  rewrite Hin. destruct tail as [|[x|] tail]; simpl in *.
  - f_equal. same_world.
  - by destruct Hhd.
  - f_equal. same_world.
Qed.

(** Every reply arrives: the loop finishes with the record of all the
    exchanges, having sent the questions in order. *)
Lemma ask_loop_finished qs : ∀ ms d m rest w,
  length ms = length qs →
  inbox w = (Some <$> ms) ++ rest →
  ask_loop me qs d m w =
  (Ok (Finished (record_of (zip qs ms) d) (last_reply m ms)),
   with_inbox rest (emits (asked me qs) w)).
Proof.
  induction qs as [|q qs IH]; intros [|m' ms] d m rest w Hlen Hin;
    try discriminate Hlen.
  - simpl in *. unfold ret. f_equal. same_world.
  - injection Hlen as Hlen.
    rewrite (ask_loop_reply q qs d m m' ((Some <$> ms) ++ rest) w) by done.
    rewrite (IH ms _ _ rest) by done.
    f_equal. same_world.
Qed.

(** [k] replies arrive and the next wait times out: the loop returns
    with the record of the first [k] exchanges, having sent [k + 1]
    questions and closed the thread. *)
Lemma ask_loop_aborted qs : ∀ ms d m tail w,
  (length ms < length qs)%nat →
  inbox w = (Some <$> ms) ++ tail →
  head tail = None ∨ head tail = Some None →
  ask_loop me qs d m w =
  (Ok (Aborted (record_of (zip qs ms) d)),
   with_inbox (drop 1 tail)
     (emits (asked me (take (S (length ms)) qs) ++ [ThreadClose me inactivity]) w)).
Proof.
  induction qs as [|q qs IH]; intros ms d m tail w Hlen Hin Hhd; simpl in Hlen; [lia|].
  destruct ms as [|m' ms].
  - rewrite (ask_loop_timeout q qs d m tail w) by done.
    f_equal.
  - simpl in Hin.
    rewrite (ask_loop_reply q qs d m m' ((Some <$> ms) ++ tail) w) by done.
    rewrite (IH ms _ _ tail); [|simpl in Hlen; lia|done|done].
    f_equal. same_world.
Qed.

(** Whatever arrives, the loop raises nothing, touches neither the
    database nor the channel, and only replies and closes. *)
Lemma ask_loop_frame qs : ∀ d m w,
  ∃ e es i, ask_loop me qs d m w = (Ok e, with_inbox i (emits es w))
            ∧ Forall thread_call es.
Proof.
  induction qs as [|q qs IH]; intros d m w.
  - exists (Finished d m), [], (inbox w). split; [|done].
    simpl. unfold ret. f_equal. same_world.
  - destruct (inbox w) as [|[m'|] tail] eqn:Hin.
    + eexists _, _, _. split.
      * apply (ask_loop_timeout q qs d m [] w); [done | by left].
      * repeat constructor.
    + rewrite (ask_loop_reply q qs d m m' tail w) by done.
      destruct (IH (dict_set d q (answer_of m')) (Some m')
                  (with_inbox tail (emit (ThreadReply me (PStr q)) w)))
        as (e & es & i & -> & Hes).
      exists e, (ThreadReply me (PStr q) :: es), i. split.
      * f_equal. same_world.
      * by constructor.
    + eexists _, _, _. split.
      * apply (ask_loop_timeout q qs d m (None :: tail) w); [done | by right].
      * repeat constructor.
Qed.

(** ** The steps around the loop *)

Lemma reply_if_set_run config key w :
  reply_if_set me config key w = (Ok tt, emits (said me config key) w).
Proof.
  unfold reply_if_set, said.
  destruct (config !! key) as [v|]; [destruct (bool_obj v)|];
    unfold perform, ret; f_equal; same_world.
Qed.

(** The Summarize step pauses and raises: with no reply to take the
    author from, or at the author's [get]. *)
Lemma summarize_raises responses m w :
  summarize main_color utcnow responses m w =
  (Raise AttributeError, emits [Sleep 1] w).
Proof.
  unfold summarize, bind, perform, ret, raise, user_get. simpl.
  by destruct m.
Qed.




Lemma relocate_gone config s n w :
  config !! "move_to" = Some (PStr s) → Py.int s = Some n → get_channel n = None →
  relocate get_channel config w =
  (Ok tt, emits [LogWarning "Move-to category does not exist. Not moving."] w).
Proof.
  intros H Hs Hn. unfold relocate, bind, getitem. rewrite H. simpl.
  rewrite Hs. simpl. by rewrite Hn.
Qed.

Lemma relocate_found config s n c w :
  config !! "move_to" = Some (PStr s) → Py.int s = Some n → get_channel n = Some c →
  relocate get_channel config w =
  (Ok tt, with_category c true (emits [ChannelEdit c true] w)).
Proof.
  intros H Hs Hn. unfold relocate, bind, getitem. rewrite H. simpl.
  rewrite Hs. simpl. by rewrite Hn.
Qed.

(** ** The whole interview *)

(** Nothing to ask: the coroutine returns at once. *)
Lemma on_thread_ready_disabled w :
  truthy (default ∅ (db w !! "config") !! "questions") = false →
  on_thread_ready me main_color utcnow get_channel w = (Ok tt, w).
Proof.
  intros H. unfold on_thread_ready, bind, find_one. simpl. by rewrite H.
Qed.

(** Something to ask: the intro, the loop, and what follows its end. *)
Lemma on_thread_ready_enabled w config questions :
  db w !! "config" = Some config →
  config !! "questions" = Some questions → bool_obj questions = true →
  on_thread_ready me main_color utcnow get_channel w =
  match ask_loop me (iter questions) [] None (emits (said me config "intro") w) with
  | (Ok (Finished responses m), w') =>
      (summarize main_color utcnow responses m ;;
       reply_if_set me config "outro" ;;
       relocate get_channel config) w'
  | (Ok (Aborted _), w') => (Ok tt, w')
  | (Raise e, w') => (Raise e, w')
  end.
Proof.
  intros Hdb Hq Hb. unfold on_thread_ready.
  unfold bind at 1. unfold find_one. rewrite Hdb. simpl.
  rewrite Hq. simpl. rewrite Hb. simpl.
  unfold bind at 1. rewrite reply_if_set_run.
  unfold bind at 1. unfold getitem at 1. rewrite Hq. unfold ret at 1.
  unfold bind at 1.
  destruct (ask_loop me (iter questions) [] None (emits (said me config "intro") w))
    as [[[r m|r]|e] w']; done.
Qed.

(** Every reply arrives: the run sends the intro and the questions,
    pauses and raises at the Summarize step. *)
Lemma on_thread_ready_answered w config questions ms rest :
  db w !! "config" = Some config →
  config !! "questions" = Some questions → bool_obj questions = true →
  length ms = length (iter questions) →
  inbox w = (Some <$> ms) ++ rest →
  on_thread_ready me main_color utcnow get_channel w =
  (Raise AttributeError,
   with_inbox rest
     (emits (said me config "intro" ++ asked me (iter questions) ++ [Sleep 1]) w)).
Proof.
  intros Hdb Hq Hb Hlen Hin.
  rewrite (on_thread_ready_enabled w config questions) by done.
  rewrite (ask_loop_finished (iter questions) ms [] None rest) by done.
  unfold bind at 1. rewrite summarize_raises.
  f_equal. same_world.
Qed.

(** [k] replies arrive and the next wait times out. *)
Lemma on_thread_ready_aborted w config questions ms tail :
  db w !! "config" = Some config →
  config !! "questions" = Some questions → bool_obj questions = true →
  (length ms < length (iter questions))%nat →
  inbox w = (Some <$> ms) ++ tail →
  head tail = None ∨ head tail = Some None →
  on_thread_ready me main_color utcnow get_channel w =
  (Ok tt,
   with_inbox (drop 1 tail)
     (emits (said me config "intro"
             ++ asked me (take (S (length ms)) (iter questions))
             ++ [ThreadClose me inactivity]) w)).
Proof.
  intros Hdb Hq Hb Hlen Hin Hhd.
  rewrite (on_thread_ready_enabled w config questions) by done.
  rewrite (ask_loop_aborted (iter questions) ms [] None tail) by done.
  f_equal. same_world.
Qed.

Lemma zip_take_l {A B} (l : list A) : ∀ (k : list B),
  zip l k = zip (take (length k) l) k.
Proof.
  induction l as [|x l IH]; intros [|y k]; simpl; try done.
  by rewrite <- IH.
Qed.

Lemma record_of_keys qas : ∀ d q,
  q ∈ keys (record_of qas d) → q ∈ keys d ∨ q ∈ qas.*1.
Proof.
  induction qas as [|[q' m'] qas IH]; intros d q; simpl; [by left|].
  intros [Hq|Hq]%IH; [|right; by right].
  destruct (decide (q' ∈ keys d)) as [Hin|Hnin].
  - left. by rewrite dict_set_keys_present in Hq.
  - rewrite dict_set_fresh in Hq by done.
    unfold keys in Hq. rewrite fmap_app in Hq.
    apply elem_of_app in Hq as [Hq| ->%list_elem_of_singleton]; [by left|].
    right. by left.
Qed.

Lemma record_of_length qas : ∀ d,
  (length (record_of qas d) ≤ length d + length qas)%nat.
Proof.
  induction qas as [|[q m] qas IH]; intros d; simpl; [lia|].
  etrans; [apply IH|]. rewrite dict_set_length. case_decide; lia.
Qed.

(** ** The claims on the interview *)

(** C1 (as amended): for every sequence of [N] pairwise distinct
    questions, when every reply arrives before its timeout the question
    loop finishes, and the record it has built from the empty record
    holds exactly [N] entries, one per question in the order of the
    questions, each carrying the answer derived from that question's
    reply. *)
Theorem answer_record_distinct_questions qs ms rest w :
  NoDup qs → length ms = length qs → inbox w = (Some <$> ms) ++ rest →
  ∃ responses m w',
    ask_loop me qs [] None w = (Ok (Finished responses m), w')
    ∧ length responses = length qs
    ∧ keys responses = qs
    ∧ responses = zip qs (answer_of <$> ms).
Proof.
  intros Hnd Hlen Hin.
  eexists _, _, _. split; [by apply (ask_loop_finished qs ms [] None rest)|].
  rewrite record_of_distinct by done. simpl.
  assert (length (answer_of <$> ms) = length qs) as Hlen'
    by by rewrite length_fmap.
  split_and!; [|apply fst_zip; lia|done].
  rewrite length_zip_with. lia.
Qed.

(** C2: when [k] replies have arrived and the wait for the next reply
    times out, [on_thread_ready] closes the thread with the reason
    "Closed due to inactivity and not responding to questions." and
    returns.  The calls made are the intro, the first [k + 1] questions
    and the close, so neither summary nor outro is sent; database and
    channel are as before, so nothing is relocated; and the record at
    the return is the one of the first [k] exchanges, without an entry
    for a question that only occurs later. *)
Theorem timeout_closes_and_aborts w config questions ms tail :
  db w !! "config" = Some config →
  config !! "questions" = Some questions → bool_obj questions = true →
  (length ms < length (iter questions))%nat →
  inbox w = (Some <$> ms) ++ tail →
  head tail = None ∨ head tail = Some None →
  let answered := take (length ms) (iter questions) in
  let record := record_of (zip answered ms) [] in
  on_thread_ready me main_color utcnow get_channel w =
    (Ok tt,
     with_inbox (drop 1 tail)
       (emits (said me config "intro"
               ++ asked me (take (S (length ms)) (iter questions))
               ++ [ThreadClose me
                     "Closed due to inactivity and not responding to questions."])
          w))
  ∧ (ask_loop me (iter questions) [] None (emits (said me config "intro") w)).1
    = Ok (Aborted record)
  ∧ (length record ≤ length ms)%nat
  ∧ ∀ q, q ∈ keys record → q ∈ answered.
Proof.
  intros Hdb Hq Hb Hlen Hin Hhd answered record. split_and!.
  - by apply (on_thread_ready_aborted w config questions ms tail).
  - rewrite (ask_loop_aborted (iter questions) ms [] None tail) by done.
    simpl. subst record answered. by rewrite <- zip_take_l.
  - subst record. etrans; [apply record_of_length|].
    simpl. rewrite length_zip_with. lia.
  - intros q [Hk|Hk]%record_of_keys; [by apply elem_of_nil in Hk|].
    subst answered. rewrite fst_zip in Hk; [done|].
    rewrite length_take. lia.
Qed.

(** C8: with no configuration document, no [questions] field or an
    empty list of questions, [on_thread_ready] returns at once: no call
    is made on any collaborator and the world is as it was. *)
Theorem no_questions_is_a_no_op w :
  db w !! "config" = None
  ∨ (∃ config, db w !! "config" = Some config
       ∧ (config !! "questions" = None ∨ config !! "questions" = Some (PList []))) →
  on_thread_ready me main_color utcnow get_channel w = (Ok tt, w).
Proof.
  intros H. apply on_thread_ready_disabled.
  destruct H as [->|(config & -> & [H|H])]; simpl; by rewrite ?lookup_empty, ?H.
Qed.

End Interview.

(** ** The answer derived from a reply *)

Lemma append_assoc (s1 s2 s3 : string) : (s1 +:+ s2) +:+ s3 = s1 +:+ s2 +:+ s3.
Proof.
  induction s1 as [|c s1 IH]; [done|].
  change (String c (s1 +:+ s2) +:+ s3 = String c (s1 +:+ s2 +:+ s3)).
  change (String c ((s1 +:+ s2) +:+ s3) = String c (s1 +:+ s2 +:+ s3)).
  by rewrite IH.
Qed.

Lemma blank_cons c s : blank (String c s) ↔ Py.isspace c = true ∧ blank s.
Proof.
  unfold blank. simpl. apply (Forall_cons (fun x => Py.isspace x = true)).
Qed.

Lemma lstrip_blank s : blank s → Py.lstrip s = "".
Proof.
  induction s as [|c s IH]; [done|].
  intros [Hc Hs]%blank_cons. simpl. rewrite Hc. by apply IH.
Qed.

Lemma rstrip_blank s : blank s → Py.rstrip s = "".
Proof.
  induction s as [|c s IH]; [done|].
  intros [Hc Hs]%blank_cons. simpl. rewrite IH by done. by rewrite Hc.
Qed.

Lemma rstrip_keeps_text c s : Py.isspace c = false → Py.rstrip (String c s) ≠ "".
Proof. intros Hc. simpl. destruct (Py.rstrip s); by rewrite ?Hc. Qed.

Lemma lstrip_text s :
  ¬ blank s → ∃ c t, Py.lstrip s = String c t ∧ Py.isspace c = false.
Proof.
  induction s as [|c s IH]; intros Hnb.
  - destruct Hnb. constructor.
  - simpl. destruct (Py.isspace c) eqn:Hc; [|by exists c, s].
    apply IH. intros Hs. apply Hnb. by apply blank_cons.
Qed.

(** [s.strip()] is true exactly when [s] has a character that is not
    white space. *)
Lemma strip_truth s : Py.bool_str (Py.strip s) = true ↔ ¬ blank s.
Proof.
  unfold Py.strip. split.
  - intros Ht Hb. rewrite lstrip_blank in Ht by done. discriminate.
  - intros (c & t & -> & Hc)%lstrip_text.
    pose proof (rstrip_keeps_text c t Hc).
    by destruct (Py.rstrip (String c t)).
Qed.

Lemma strip_blank s : blank s → Py.bool_str (Py.strip s) = false.
Proof.
  intros Hb. destruct (Py.bool_str (Py.strip s)) eqn:Ht; [|done].
  by apply strip_truth in Ht.
Qed.

Lemma attachment_lines (atts : list attachment) : ∀ acc,
  atts ≠ [] →
  foldl (fun acc a => acc +:+ attachment_line a) acc atts =
  acc +:+ newline
    +:+ String.concat newline
          ((fun a => "`" +:+ filename a +:+ "`: " +:+ url a) <$> atts).
Proof.
  induction atts as [|a atts IH]; intros acc Hne; [done|].
  destruct atts as [|b atts].
  { simpl. unfold attachment_line. by rewrite ?append_assoc. }
  cbn [foldl]. cbn [foldl] in IH. rewrite IH by done.
  cbn [fmap list_fmap String.concat]. unfold attachment_line.
  by rewrite !append_assoc.
Qed.

(** C3 (as amended): the answer derived from a reply is the reply's
    text unchanged when the text has a character that is not white
    space and there is no attachment; the placeholder
    "<No Message Content>" when the text is empty or all white space and
    there is no attachment; and with attachments it is that text or
    placeholder, two newlines, and the newline-separated list of the
    attachments as `filename`: url.  So an empty text with one
    attachment named "a.png" yields the placeholder, two newlines and
    "`a.png`: <url>". *)
Theorem answer_derivation (m : message) :
  let text_only :=
    {| content := content m; attachments := []; author := author m |} in
  (attachments m = [] → ¬ blank (content m) → answer_of m = content m)
  ∧ (attachments m = [] → blank (content m) →
     answer_of m = "<No Message Content>")
  ∧ (attachments m ≠ [] →
     answer_of m =
     answer_of text_only +:+ newline +:+ newline
       +:+ String.concat newline
             ((fun a => "`" +:+ filename a +:+ "`: " +:+ url a)
                <$> attachments m))
  ∧ (∀ u, content m = "" →
     attachments m = [{| filename := "a.png"; url := u |}] →
     answer_of m =
     "<No Message Content>" +:+ newline +:+ newline +:+ "`a.png`: " +:+ u).
Proof.
  intros text_only. unfold answer_of. split_and!.
  - intros -> Hnb. apply strip_truth in Hnb. by rewrite Hnb.
  - intros -> Hb. by rewrite strip_blank.
  - intros Hne. destruct (attachments m) as [|a atts] eqn:Hatts; [done|].
    rewrite attachment_lines by done. subst text_only. simpl.
    by rewrite !append_assoc.
  - intros u -> ->. reflexivity.
Qed.

(** ** The configuration store *)

Lemma apply_set_other set : ∀ (doc : gmap string pyobj) field,
  field ∉ set.*1 → apply_set set doc !! field = doc !! field.
Proof.
  unfold apply_set.
  induction set as [|[k v] set IH]; intros doc field Hf; [done|].
  simpl in *. apply not_elem_of_cons in Hf as [Hne Hf].
  rewrite IH by done. by apply lookup_insert_ne.
Qed.

Lemma upsert_preserves key set d : preserves set.*1 d (upsert key set d).
Proof.
  intros k doc Hk. unfold upsert.
  destruct (decide (key = k)) as [->|Hne].
  - rewrite Hk. simpl. rewrite lookup_insert_eq. eexists. split; [done|].
    intros field Hf. by apply apply_set_other.
  - rewrite lookup_insert_ne by done. by exists doc.
Qed.

Lemma preserves_refl written d : preserves written d d.
Proof. intros k doc Hk. by exists doc. Qed.

(** ** The question loop of [configquestions] *)

Lemma prompts_S i todo :
  prompts i (S todo) =
  CtxSend ("What's question #" +:+ Py.str i +:+ "?") :: prompts (i + 1) todo.
Proof.
  unfold prompts. rewrite seqZ_cons by lia. simpl.
  do 3 f_equal; lia.
Qed.

Lemma question_loop_reply todo i qs m rest w :
  inbox w = Some m :: rest → content m ≠ "" →
  question_loop (S todo) i qs w =
  question_loop todo (i + 1) (qs ++ [content m])
    (with_inbox rest
       (emit (CtxSend ("What's question #" +:+ Py.str i +:+ "?")) w)).
Proof.
  intros Hin Hne. simpl.
  unfold bind, perform, try_except, wait_for_channel_response, wait_for. simpl.
  rewrite Hin. by destruct (content m).
Qed.

Lemma question_loop_empty_reply todo i qs m rest w :
  inbox w = Some m :: rest → content m = "" →
  question_loop (S todo) i qs w =
  (Ok Returned,
   with_inbox rest
     (emits [CtxSend ("What's question #" +:+ Py.str i +:+ "?");
             CtxSend "Question must be text-only."] w)).
Proof.
  intros Hin He. simpl.
  unfold bind, perform, try_except, wait_for_channel_response, wait_for, ret. simpl.
  rewrite Hin, He. simpl. f_equal. same_world.
Qed.

Lemma question_loop_timeout todo i qs tail w :
  inbox w = tail → head tail = None ∨ head tail = Some None →
  question_loop (S todo) i qs w =
  (Ok Returned,
   with_inbox (drop 1 tail)
     (emits [CtxSend ("What's question #" +:+ Py.str i +:+ "?");
             CtxSend "Timed out."] w)).
Proof.
  intros Hin Hhd. simpl.
  unfold bind, perform, try_except, wait_for_channel_response, wait_for, ret. simpl.
  rewrite Hin. destruct tail as [|[x|] tail]; simpl in *.
  - f_equal. same_world.
  - by destruct Hhd.
  - f_equal. same_world.
Qed.

(** Every question is answered with a text: the loop collects them. *)
Lemma question_loop_collected todo : ∀ i qs ms rest w,
  length ms = todo → Forall (fun m => content m ≠ "") ms →
  inbox w = (Some <$> ms) ++ rest →
  question_loop todo i qs w =
  (Ok (Collected (qs ++ (content <$> ms))),
   with_inbox rest (emits (prompts i todo) w)).
Proof.
  induction todo as [|todo IH]; intros i qs [|m ms] rest w Hlen Hne Hin;
    try discriminate Hlen.
  - simpl in *. unfold ret. rewrite app_nil_r. f_equal. same_world.
  - injection Hlen as Hlen. apply Forall_cons in Hne as [Hm Hne].
    rewrite (question_loop_reply todo i qs m ((Some <$> ms) ++ rest) w) by done.
    rewrite (IH _ _ ms rest) by done.
    rewrite prompts_S, <- app_assoc. f_equal. same_world.
Qed.

(** An empty reply after [k] texts: the loop returns from the command. *)
Lemma question_loop_empty todo : ∀ i qs ms e rest w,
  (length ms < todo)%nat → Forall (fun m => content m ≠ "") ms →
  inbox w = (Some <$> ms) ++ Some e :: rest → content e = "" →
  question_loop todo i qs w =
  (Ok Returned,
   with_inbox rest
     (emits (prompts i (S (length ms)) ++ [CtxSend "Question must be text-only."]) w)).
Proof.
  induction todo as [|todo IH]; intros i qs ms e rest w Hlen Hne Hin He; [lia|].
  destruct ms as [|m ms].
  - rewrite (question_loop_empty_reply todo i qs e rest w) by done.
    by rewrite prompts_S.
  - apply Forall_cons in Hne as [Hm Hne]. simpl in Hlen.
    rewrite (question_loop_reply todo i qs m ((Some <$> ms) ++ Some e :: rest) w)
      by done.
    rewrite (IH _ _ ms e rest); [|lia|done..].
    cbn [length]. rewrite (prompts_S i (S (length ms))). f_equal. same_world.
Qed.

(** Whatever arrives, the loop only talks to the operator, and it
    collects a list only out of [todo] non-empty replies. *)
Lemma question_loop_frame todo : ∀ i qs w,
  ∃ r es inb,
    question_loop todo i qs w = (Ok r, with_inbox inb (emits es w))
    ∧ Forall ctx_call es
    ∧ match r with
      | Returned => True
      | Collected qs' =>
          ∃ ms, length ms = todo ∧ Forall (fun m => content m ≠ "") ms
            ∧ inbox w = (Some <$> ms) ++ inb ∧ qs' = qs ++ (content <$> ms)
            ∧ es = prompts i todo
      end.
Proof.
  induction todo as [|todo IH]; intros i qs w.
  - exists (Collected qs), [], (inbox w). split_and!; [|done|].
    + simpl. unfold ret. f_equal. same_world.
    + exists []. by rewrite app_nil_r.
  - destruct (inbox w) as [|[m|] tail] eqn:Hin.
    + eexists Returned, _, _. split.
      { apply (question_loop_timeout todo i qs [] w); [done|by left]. }
      split; [by repeat constructor|done].
    + destruct (decide (content m = "")) as [He|Hne].
      * eexists Returned, _, _. split.
        { by apply (question_loop_empty_reply todo i qs m tail w). }
        split; [by repeat constructor|done].
      * rewrite (question_loop_reply todo i qs m tail w) by done.
        destruct (IH (i + 1) (qs ++ [content m])
                    (with_inbox tail
                       (emit (CtxSend ("What's question #" +:+ Py.str i +:+ "?")) w)))
          as (r & es & inb & -> & Hes & Hr).
        exists r, (CtxSend ("What's question #" +:+ Py.str i +:+ "?") :: es), inb.
        split_and!.
        -- f_equal. same_world.
        -- by constructor.
        -- destruct r as [qs'|]; [|done].
           destruct Hr as (ms & Hlen & Hne' & Hin' & -> & ->).
           exists (m :: ms). simpl in *. split_and!.
           ++ by rewrite Hlen.
           ++ by constructor.
           ++ by rewrite Hin'.
           ++ by rewrite <- app_assoc.
           ++ by rewrite prompts_S.
    + eexists Returned, _, _. split.
      { apply (question_loop_timeout todo i qs (None :: tail) w); [done|by right]. }
      split; [by repeat constructor|done].
Qed.

(** ** The commands *)

Lemma configquestions_timeout move_to tail w :
  inbox w = tail → head tail = None ∨ head tail = Some None →
  configquestions move_to w =
  (Ok tt,
   with_inbox (drop 1 tail)
     (emits [CtxSend "How many questions do you have?"; CtxSend "Timed out."] w)).
Proof.
  intros Hin Hhd.
  unfold configquestions, bind, perform, try_except, wait_for_channel_response,
    wait_for. simpl.
  rewrite Hin. destruct tail as [|[x|] tail]; simpl in *.
  - f_equal. same_world.
  - by destruct Hhd.
  - f_equal. same_world.
Qed.

Lemma configquestions_invalid move_to m rest w :
  inbox w = Some m :: rest → Py.int (content m) = None →
  configquestions move_to w =
  (Ok tt,
   with_inbox rest
     (emits [CtxSend "How many questions do you have?"; CtxSend "Invalid input."] w)).
Proof.
  intros Hin Hint.
  unfold configquestions, bind, perform, try_except, wait_for_channel_response,
    wait_for. simpl.
  rewrite Hin, Hint. simpl. f_equal. same_world.
Qed.

Lemma configquestions_count move_to m tail count w :
  inbox w = Some m :: tail → Py.int (content m) = Some count →
  configquestions move_to w =
  match question_loop (range_len count) 1 []
          (with_inbox tail (emit (CtxSend "How many questions do you have?") w)) with
  | (Ok (Collected questions), w') =>
      (Ok tt,
       emits [DbSet "config" (questions_set questions move_to); CtxSend "Saved"]
         (with_db (upsert "config" (questions_set questions move_to) (db w')) w'))
  | (Ok Returned, w') => (Ok tt, w')
  | (Raise e, w') => (Raise e, w')
  end.
Proof.
  intros Hin Hint.
  unfold configquestions. unfold bind at 1. unfold perform at 1.
  unfold try_except, wait_for_channel_response, wait_for. simpl.
  rewrite Hin, Hint. unfold bind at 1.
  destruct (question_loop _ _ _ _) as [[[questions|]|e] w']; try done.
  unfold bind, find_one_and_update, perform. simpl. f_equal. same_world.
Qed.

Lemma configquestions_saved move_to m count ms rest w :
  inbox w = Some m :: (Some <$> ms) ++ rest → Py.int (content m) = Some count →
  length ms = range_len count → Forall (fun m => content m ≠ "") ms →
  configquestions move_to w =
  (Ok tt,
   saved "config" (questions_set (content <$> ms) move_to)
     (CtxSend "How many questions do you have?" :: prompts 1 (range_len count))
     rest w).
Proof.
  intros Hin Hint Hlen Hne.
  rewrite (configquestions_count move_to m ((Some <$> ms) ++ rest) count w) by done.
  rewrite (question_loop_collected (range_len count) 1 [] ms rest) by done.
  simpl. f_equal. unfold saved. same_world.
Qed.

(** A run of [configquestions] either only talks to the operator, or
    it has a count and as many non-empty replies and saves them. *)
Lemma configquestions_cases move_to w :
  (∃ r es inb,
     configquestions move_to w = (r, with_inbox inb (emits es w))
     ∧ Forall ctx_call es)
  ∨ (∃ m count ms rest,
       inbox w = Some m :: (Some <$> ms) ++ rest
       ∧ Py.int (content m) = Some count
       ∧ length ms = range_len count
       ∧ Forall (fun m => content m ≠ "") ms
       ∧ configquestions move_to w =
         (Ok tt,
          saved "config" (questions_set (content <$> ms) move_to)
            (CtxSend "How many questions do you have?" :: prompts 1 (range_len count))
            rest w)).
Proof.
  destruct (inbox w) as [|[m|] tail] eqn:Hin.
  - left. eexists _, _, _. split.
    { apply (configquestions_timeout move_to [] w); [done|by left]. }
    by repeat constructor.
  - destruct (Py.int (content m)) as [count|] eqn:Hint.
    + pose proof (question_loop_frame (range_len count) 1 []
                    (with_inbox tail
                       (emit (CtxSend "How many questions do you have?") w)))
        as (r & es & inb & Hloop & Hes & Hr).
      destruct r as [questions|].
      * right. destruct Hr as (ms & Hlen & Hne & Htail & -> & ->).
        simpl in Htail. subst tail.
        exists m, count, ms, inb. split_and!; try done.
        by apply (configquestions_saved move_to m count ms inb w).
      * left. rewrite (configquestions_count move_to m tail count w) by done.
        rewrite Hloop.
        exists (Ok tt), (CtxSend "How many questions do you have?" :: es), inb.
        split; [f_equal; same_world|by constructor].
    + left. eexists _, _, _. split.
      { by apply (configquestions_invalid move_to m tail w). }
      by repeat constructor.
  - left. eexists _, _, _. split.
    { apply (configquestions_timeout move_to (None :: tail) w); [done|by right]. }
    by repeat constructor.
Qed.

Lemma config_text_saved prompt complaint field move_to m rest w :
  inbox w = Some m :: rest → content m ≠ "" →
  config_text prompt complaint field move_to w =
  (Ok tt, saved "config" (text_set field (content m) move_to) [CtxSend prompt] rest w).
Proof.
  intros Hin Hne.
  unfold config_text, bind, perform, try_except, wait_for_channel_response,
    wait_for, find_one_and_update. simpl.
  rewrite Hin. destruct (content m) eqn:Hc; [done|]. simpl.
  f_equal. unfold saved. same_world.
Qed.

Lemma config_text_cases prompt complaint field move_to w :
  (∃ r es inb,
     config_text prompt complaint field move_to w = (r, with_inbox inb (emits es w))
     ∧ Forall ctx_call es)
  ∨ (∃ m rest,
       inbox w = Some m :: rest ∧ content m ≠ ""
       ∧ config_text prompt complaint field move_to w =
         (Ok tt,
          saved "config" (text_set field (content m) move_to) [CtxSend prompt] rest w)).
Proof.
  destruct (inbox w) as [|[m|] tail] eqn:Hin.
  - left. exists (Ok tt), [CtxSend prompt; CtxSend "Timed out."], []. split.
    + unfold config_text, bind, perform, try_except, wait_for_channel_response,
        wait_for. simpl. rewrite Hin. simpl. f_equal. same_world.
    + by repeat constructor.
  - destruct (decide (content m = "")) as [He|Hne].
    + left. exists (Ok tt), [CtxSend prompt; CtxSend complaint], tail. split.
      * unfold config_text, bind, perform, try_except, wait_for_channel_response,
          wait_for. simpl. rewrite Hin, He. simpl. f_equal. same_world.
      * by repeat constructor.
    + right. exists m, tail. split_and!; [done..|].
      by apply config_text_saved.
  - left. exists (Ok tt), [CtxSend prompt; CtxSend "Timed out."], tail. split.
    + unfold config_text, bind, perform, try_except, wait_for_channel_response,
        wait_for. simpl. rewrite Hin. simpl. f_equal. same_world.
    + by repeat constructor.
Qed.

Lemma ctx_calls_persist_nothing es key set :
  Forall ctx_call es → DbSet key set ∉ es.
Proof.
  intros Hes Hin. by apply (proj1 (Forall_forall _ _) Hes) in Hin.
Qed.

(** C4 (as amended): in [configquestions] the reply to "How many
    questions do you have?" goes through [int]: for every reply that
    [int] rejects the command sends "Invalid input." and returns, the
    database untouched; a run persists something only after a reply
    that [int] accepts; and every integer count leads on to persisting,
    a count of zero or less persisting the empty list of questions at
    once. *)
Theorem count_must_be_an_integer move_to :
  (∀ m rest w,
     inbox w = Some m :: rest → Py.int (content m) = None →
     configquestions move_to w =
     (Ok tt,
      with_inbox rest
        (emits [CtxSend "How many questions do you have?";
                CtxSend "Invalid input."] w)))
  ∧ (∀ w r w' es key set,
       configquestions move_to w = (r, w') → trace w' = trace w ++ es →
       DbSet key set ∈ es ∨ db w' ≠ db w →
       ∃ m rest count,
         inbox w = Some m :: rest ∧ Py.int (content m) = Some count)
  ∧ (∀ m rest count w,
       inbox w = Some m :: rest → Py.int (content m) = Some count → count ≤ 0 →
       configquestions move_to w =
       (Ok tt,
        saved "config" (questions_set [] move_to)
          [CtxSend "How many questions do you have?"] rest w)).
Proof.
  split_and!.
  - intros m rest w. apply configquestions_invalid.
  - intros w r w' es key set Hrun Htr Hchange.
    destruct (configquestions_cases move_to w)
      as [(r0 & es0 & inb & Hrun0 & Hes)
         |(m & count & ms & rest & Hin & Hint & _)].
    + rewrite Hrun0 in Hrun. injection Hrun as <- <-. simpl in *.
      apply app_inv_head in Htr. subst es.
      destruct Hchange as [Hset|Hdb]; [|done].
      by apply ctx_calls_persist_nothing in Hset.
    + by exists m, ((Some <$> ms) ++ rest), count.
  - intros m rest count w Hin Hint Hle.
    assert (range_len count = 0%nat) as Hz by (unfold range_len; lia).
    rewrite (configquestions_saved move_to m count [] rest w); try done.
    by rewrite Hz.
Qed.

(** C5: in [configquestions], an empty reply to "What's question #i?"
    makes the command send "Question must be text-only." and return with
    the database untouched, whatever was collected in the rounds before;
    and a run persists something only when every one of the [count]
    questions was answered with a non-empty text, and then it persists
    exactly those texts, in order, with [move_to]. *)
Theorem empty_question_aborts move_to :
  (∀ m count ms e rest w,
     inbox w = Some m :: (Some <$> ms) ++ Some e :: rest →
     Py.int (content m) = Some count →
     (length ms < range_len count)%nat →
     Forall (fun m => content m ≠ "") ms → content e = "" →
     configquestions move_to w =
     (Ok tt,
      with_inbox rest
        (emits (CtxSend "How many questions do you have?"
                :: prompts 1 (S (length ms))
                ++ [CtxSend "Question must be text-only."]) w)))
  ∧ (∀ w r w' es key set,
       configquestions move_to w = (r, w') → trace w' = trace w ++ es →
       DbSet key set ∈ es ∨ db w' ≠ db w →
       ∃ m count ms rest,
         inbox w = Some m :: (Some <$> ms) ++ rest
         ∧ Py.int (content m) = Some count
         ∧ length ms = range_len count
         ∧ Forall (fun m => content m ≠ "") ms
         ∧ db w' = upsert "config" (questions_set (content <$> ms) move_to) (db w)).
Proof.
  split.
  - intros m count ms e rest w Hin Hint Hlen Hne He.
    rewrite (configquestions_count move_to m _ count w Hin Hint).
    rewrite (question_loop_empty (range_len count) 1 [] ms e rest) by done.
    f_equal. same_world.
  - intros w r w' es key set Hrun Htr Hchange.
    destruct (configquestions_cases move_to w)
      as [(r0 & es0 & inb & Hrun0 & Hes)
         |(m & count & ms & rest & Hin & Hint & Hlen & Hne & Hrun0)].
    + rewrite Hrun0 in Hrun. injection Hrun as <- <-. simpl in *.
      apply app_inv_head in Htr. subst es.
      destruct Hchange as [Hset|Hdb]; [|done].
      by apply ctx_calls_persist_nothing in Hset.
    + exists m, count, ms, rest. split_and!; try done.
      rewrite Hrun0 in Hrun. by injection Hrun as <- <-.
Qed.

Lemma config_text_preserves prompt complaint field move_to w :
  preserves [field; "move_to"] (db w)
    (db (config_text prompt complaint field move_to w).2).
Proof.
  destruct (config_text_cases prompt complaint field move_to w)
    as [(r & es & inb & -> & _)|(m & rest & _ & _ & ->)]; simpl.
  - apply preserves_refl.
  - apply (upsert_preserves "config" (text_set field (content m) move_to)).
Qed.

(** C6: every write of the three commands is a merge.  Whatever a run
    of [configquestions], [configoutro] or [configintro] does, every
    document of the partition is still there afterwards, and every
    field of it other than the command's own field and [move_to] holds
    what it held.  In particular a successful [configoutro] on a
    configuration that has a [questions] field leaves that field as it
    was, next to the new [outro] and [move_to]. *)
Theorem config_write_is_a_merge move_to w :
  preserves ["questions"; "move_to"] (db w) (db (configquestions move_to w).2)
  ∧ preserves ["outro"; "move_to"] (db w) (db (configoutro move_to w).2)
  ∧ preserves ["intro"; "move_to"] (db w) (db (configintro move_to w).2)
  ∧ (∀ m rest doc qs,
       inbox w = Some m :: rest → content m ≠ "" →
       db w !! "config" = Some doc → doc !! "questions" = Some qs →
       ∃ doc', db (configoutro move_to w).2 !! "config" = Some doc'
         ∧ doc' !! "questions" = Some qs
         ∧ doc' !! "outro" = Some (PStr (content m))
         ∧ doc' !! "move_to" = Some (PStr (Py.str (id move_to)))).
Proof.
  split_and!.
  - destruct (configquestions_cases move_to w)
      as [(r & es & inb & -> & _)|(m & count & ms & rest & _ & _ & _ & _ & ->)];
      simpl.
    + apply preserves_refl.
    + apply (upsert_preserves "config" (questions_set (content <$> ms) move_to)).
  - apply config_text_preserves.
  - apply config_text_preserves.
  - intros m rest doc qs Hin Hne Hdoc Hqs.
    unfold configoutro. rewrite (config_text_saved _ _ _ move_to m rest w) by done.
    simpl. unfold upsert. rewrite Hdoc. simpl. rewrite lookup_insert_eq.
    eexists. split; [done|]. unfold apply_set. simpl.
    rewrite lookup_insert_ne, lookup_insert_ne, lookup_insert_ne, lookup_insert_eq,
      lookup_insert_eq by done.
    by rewrite Hqs.
Qed.

(** ** The claims at sample inputs *)

(** Two distinct questions, two replies: two entries, in order. *)
Lemma answer_record_distinct_questions_witness :
  ∃ responses m w',
    ask_loop bot_user two_questions [] None
      (sample_world "42" [Some (text_msg "Ann"); Some picture_msg])
    = (Ok (Finished responses m), w')
    ∧ length responses = length two_questions
    ∧ keys responses = two_questions
    ∧ responses = zip two_questions (answer_of <$> [text_msg "Ann"; picture_msg]).
Proof.
  apply (answer_record_distinct_questions bot_user two_questions
           [text_msg "Ann"; picture_msg] []).
  - apply (bool_decide_unpack (NoDup two_questions)). vm_compute. exact I.
  - reflexivity.
  - reflexivity.
Defined.

(** C1 as stated fails: a question asked twice has one entry. *)
Lemma repeated_question_has_one_entry :
  let qs := ["Why?"; "Why?"] in
  let w := world0 (one_db (config_doc qs "42"))
             [Some (text_msg "x"); Some (text_msg "y")] in
  (ask_loop bot_user qs [] None w).1
  = Ok (Finished [("Why?", "y")] (Some (text_msg "y")))
  ∧ length [("Why?", "y")] ≠ length qs.
Proof. split; [reflexivity|discriminate]. Qed.

(** One reply, then a timeout on the second question. *)
Lemma timeout_closes_and_aborts_witness :
  let w := sample_world "42" [Some (text_msg "Ann"); None] in
  on_thread_ready bot_user 7 1000 channels w =
  (Ok tt,
   with_inbox []
     (emits [ThreadReply bot_user (PStr "Hello.");
             ThreadReply bot_user (PStr "Name?");
             ThreadReply bot_user (PStr "Why?");
             ThreadClose bot_user
               "Closed due to inactivity and not responding to questions."] w)).
Proof.
  intros w.
  apply (timeout_closes_and_aborts bot_user 7 1000 channels w
           (sample_config "42") (PList two_questions) [text_msg "Ann"] [None]).
  - vm_compute. reflexivity.
  - vm_compute. reflexivity.
  - reflexivity.
  - simpl. lia.
  - reflexivity.
  - right. reflexivity.
Defined.

(** An empty text with one attachment named "a.png". *)
Lemma answer_derivation_witness :
  answer_of picture_msg =
  "<No Message Content>" +:+ newline +:+ newline +:+ "`a.png`: https://cdn/a.png".
Proof.
  apply (answer_derivation picture_msg); reflexivity.
Defined.

(** C3 as stated fails: two newlines separate the placeholder from the
    attachment, not one. *)
Lemma one_attachment_after_two_newlines :
  answer_of picture_msg =
  "<No Message Content>" +:+ newline +:+ newline +:+ "`a.png`: https://cdn/a.png"
  ∧ answer_of picture_msg ≠
    "<No Message Content>" +:+ newline +:+ "`a.png`: https://cdn/a.png".
Proof. split; [reflexivity|discriminate]. Qed.

(** A text of white space only is replaced as well. *)
Example blank_text_is_replaced :
  answer_of (text_msg "  ") = "<No Message Content>".
Proof. reflexivity. Qed.

(** The reply "abc" to the count prompt. *)
Lemma count_must_be_an_integer_witness :
  let w := world0 ∅ [Some (text_msg "abc")] in
  configquestions {| id := 42 |} w =
  (Ok tt,
   with_inbox []
     (emits [CtxSend "How many questions do you have?"; CtxSend "Invalid input."] w)).
Proof.
  intros w.
  apply (proj1 (count_must_be_an_integer {| id := 42 |}) (text_msg "abc") [] w);
    reflexivity.
Defined.

(** C4 as stated fails: the count "0" is no positive integer, and the
    command persists an empty list of questions and confirms. *)
Lemma count_zero_is_saved :
  let w := world0 ∅ [Some (text_msg "0")] in
  let w' := (configquestions {| id := 42 |} w).2 in
  Py.int "0" = Some 0
  ∧ trace w' =
    [CtxSend "How many questions do you have?";
     DbSet "config" [("questions", PList []); ("move_to", PStr "42")];
     CtxSend "Saved"]
  ∧ db w' !! "config" =
    Some (<["move_to" := PStr "42"]>
            (<["questions" := PList []]> {[ "_id" := PStr "config" ]})).
Proof. repeat split; vm_compute; reflexivity. Qed.

(** A negative count does the same. *)
Example negative_count_is_saved :
  trace (configquestions {| id := 42 |} (world0 ∅ [Some (text_msg "-3")])).2 =
  [CtxSend "How many questions do you have?";
   DbSet "config" [("questions", PList []); ("move_to", PStr "42")];
   CtxSend "Saved"].
Proof. vm_compute. reflexivity. Qed.

(** Count 2, first answer empty. *)
Lemma empty_question_aborts_witness :
  let w := sample_world "42" [Some (text_msg "2"); Some (text_msg "")] in
  configquestions {| id := 7 |} w =
  (Ok tt,
   with_inbox []
     (emits [CtxSend "How many questions do you have?";
             CtxSend "What's question #1?";
             CtxSend "Question must be text-only."] w)).
Proof.
  intros w.
  apply (proj1 (empty_question_aborts {| id := 7 |})
           (text_msg "2") 2 [] (text_msg "") [] w).
  - reflexivity.
  - reflexivity.
  - simpl. unfold range_len. lia.
  - constructor.
  - reflexivity.
Defined.

(** [configoutro] on a configuration with questions. *)
Lemma config_write_is_a_merge_witness :
  let w := world0 (one_db (config_doc two_questions "42")) [Some (text_msg "Bye.")] in
  ∃ doc', db (configoutro {| id := 43 |} w).2 !! "config" = Some doc'
    ∧ doc' !! "questions" = Some (PList two_questions)
    ∧ doc' !! "outro" = Some (PStr "Bye.")
    ∧ doc' !! "move_to" = Some (PStr "43").
Proof.
  intros w.
  apply (proj2 (proj2 (proj2 (config_write_is_a_merge {| id := 43 |} w)))
           (text_msg "Bye.") [] (config_doc two_questions "42") (PList two_questions)).
  - reflexivity.
  - discriminate.
  - vm_compute. reflexivity.
  - vm_compute. reflexivity.
Defined.

(** An empty list of questions. *)
Lemma no_questions_is_a_no_op_witness :
  let w := world0 (one_db (config_doc [] "42")) [Some (text_msg "Ann")] in
  on_thread_ready bot_user 7 1000 channels w = (Ok tt, w).
Proof.
  intros w. apply no_questions_is_a_no_op. right.
  exists (config_doc [] "42"). split; [reflexivity|]. right. reflexivity.
Defined.

(** ** The primitives at sample inputs *)

Example strip_blank_text : Py.strip "  " = "".
Proof. reflexivity. Qed.

Example strip_text : Py.strip "  a b  " = "a b".
Proof. reflexivity. Qed.

Example int_abc : Py.int "abc" = None.
Proof. reflexivity. Qed.

Example int_padded : Py.int " -1_2 " = Some (-12).
Proof. reflexivity. Qed.

Example int_trailing_underscore : Py.int "12_" = None.
Proof. reflexivity. Qed.

Example int_fraction : Py.int "1.5" = None.
Proof. reflexivity. Qed.

Example str_negative : Py.str (-120) = "-120".
Proof. reflexivity. Qed.

Example str_zero : Py.str 0 = "0".
Proof. reflexivity. Qed.

(** ** More on the answer and the record *)

Lemma append_nonempty (s t : string) : s ≠ "" → s +:+ t ≠ "".
Proof. by destruct s. Qed.

Lemma attachment_fold_nonempty (atts : list attachment) : ∀ acc,
  acc ≠ "" → foldl (fun acc a => acc +:+ attachment_line a) acc atts ≠ "".
Proof.
  induction atts as [|a atts IH]; intros acc Hacc; [done|].
  simpl. apply IH. by apply append_nonempty.
Qed.

(** X1: the answer derived from a reply is never the empty text,
    whatever the reply's text and attachments. *)
Theorem answer_never_empty (m : message) : answer_of m ≠ "".
Proof.
  unfold answer_of.
  assert ((if Py.bool_str (Py.strip (content m)) then content m else no_content)
          ≠ "") as Hbase.
  { destruct (Py.bool_str (Py.strip (content m))) eqn:Hs; [|done].
    intros He. rewrite He in Hs. discriminate. }
  destruct (attachments m) as [|a atts]; [done|].
  apply attachment_fold_nonempty. by apply append_nonempty.
Qed.

Lemma dict_set_keys (d : dict) k v :
  keys (dict_set d k v) = if decide (k ∈ keys d) then keys d else keys d ++ [k].
Proof.
  case_decide as Hk.
  - by apply dict_set_keys_present.
  - rewrite dict_set_fresh by done. unfold keys. by rewrite fmap_app.
Qed.

Lemma record_of_keys_from (qs : list string) : ∀ (ms : list message) (d : dict),
  length ms = length qs →
  keys (record_of (zip qs ms) d) =
  keys d ++ filter (fun q => q ∉ keys d) (distinct qs).
Proof.
  induction qs as [|q qs IH]; intros [|m ms] d Hlen; try discriminate Hlen.
  - simpl. by rewrite app_nil_r.
  - injection Hlen as Hlen. unfold record_of in *. simpl.
    rewrite IH by done. rewrite dict_set_keys.
    destruct (decide (q ∈ keys d)) as [Hin|Hnin].
    + rewrite filter_cons_False by (by intros ?). f_equal.
      rewrite list_filter_filter. apply list_filter_iff.
      intros x. split; [|tauto]. intros Hx. split; [done|]. by intros ->.
    + rewrite filter_cons_True by done. rewrite <- app_assoc. simpl. do 2 f_equal.
      rewrite list_filter_filter. apply list_filter_iff.
      intros x. rewrite elem_of_app, list_elem_of_singleton. tauto.
Qed.

Lemma record_of_keys_distinct (qs : list string) (ms : list message) :
  length ms = length qs →
  keys (record_of (zip qs ms) []) = distinct qs
  ∧ NoDup (keys (record_of (zip qs ms) [])).
Proof.
  intros Hlen. rewrite record_of_keys_from by done.
  assert (∀ l : list string,
            filter (fun q => q ∉ keys ([] : dict)) l = l) as Hall.
  { induction l as [|x l IH]; [done|].
    rewrite filter_cons_True by apply not_elem_of_nil. by rewrite IH. }
  rewrite Hall. simpl. split; [done|]. clear.
  induction qs as [|q qs IH]; simpl; [constructor|].
  apply NoDup_cons. split.
  - rewrite list_elem_of_filter. tauto.
  - by apply NoDup_filter.
Qed.

Lemma dict_get_set (d : dict) k v : dict_get (dict_set d k v) k = Some v.
Proof.
  induction d as [|[k' v'] d IH]; simpl.
  - by rewrite String.eqb_refl.
  - destruct (String.eqb_spec k' k) as [->|Hne]; simpl.
    + by rewrite String.eqb_refl.
    + by destruct (String.eqb_spec k' k).
Qed.

Lemma dict_get_set_other (d : dict) k k' v :
  k ≠ k' → dict_get (dict_set d k' v) k = dict_get d k.
Proof.
  intros Hne. induction d as [|[k0 v0] d IH]; simpl.
  - by destruct (String.eqb_spec k' k) as [->|_].
  - destruct (String.eqb_spec k0 k') as [->|Hne0]; simpl.
    + by destruct (String.eqb_spec k' k) as [->|_].
    + by rewrite IH.
Qed.

Lemma record_of_cons q m qas d :
  record_of ((q, m) :: qas) d = record_of qas (dict_set d q (answer_of m)).
Proof. done. Qed.

Lemma record_of_get_other (qs : list string) : ∀ (ms : list message) (d : dict) q,
  q ∉ qs → dict_get (record_of (zip qs ms) d) q = dict_get d q.
Proof.
  induction qs as [|q0 qs IH]; intros [|m ms] d q Hq; try done.
  apply not_elem_of_cons in Hq as [Hne Hq].
  simpl zip. rewrite record_of_cons, IH by done.
  by apply dict_get_set_other.
Qed.

Lemma record_of_get_last (qs : list string) : ∀ (ms : list message) d i q m,
  qs !! i = Some q → ms !! i = Some m →
  (∀ j, (i < j)%nat → qs !! j ≠ Some q) →
  dict_get (record_of (zip qs ms) d) q = Some (answer_of m).
Proof.
  induction qs as [|q0 qs IH]; intros [|m0 ms] d i q m Hq Hm Hlast;
    try (by destruct i).
  simpl zip. rewrite record_of_cons. destruct i as [|i]; simpl in Hq, Hm.
  - injection Hq as ->. injection Hm as ->.
    rewrite record_of_get_other; [apply dict_get_set|].
    intros (j & Hj)%list_elem_of_lookup. by apply (Hlast (S j)); [lia|].
  - apply (IH ms _ i q m Hq Hm).
    intros j Hj. apply (Hlast (S j)). lia.
Qed.

(** ** Every run of the interview *)

Lemma inbox_split (n : nat) : ∀ i : list (option message),
  (∃ ms rest, length ms = n ∧ i = (Some <$> ms) ++ rest)
  ∨ (∃ ms tail, (length ms < n)%nat ∧ i = (Some <$> ms) ++ tail
       ∧ (head tail = None ∨ head tail = Some None)).
Proof.
  induction n as [|n IH]; intros i.
  - left. by exists [], i.
  - destruct i as [|[m|] i].
    + right. exists [], []. split_and!; [simpl; lia|done|by left].
    + destruct (IH i) as [(ms & rest & Hlen & ->)|(ms & tail & Hlen & -> & Hhd)].
      * left. exists (m :: ms), rest. by rewrite <- Hlen.
      * right. exists (m :: ms), tail. split_and!; [simpl; lia|done..].
    + right. exists [], (None :: i). split_and!; [simpl; lia|done|by right].
Qed.

Section Runs.

Variable me : user.
Variable main_color : Z.
Variable utcnow : Z.
Variable get_channel : Z -> option channel.

(** Every run of [on_thread_ready] takes one of the three ways. *)
Lemma on_thread_ready_runs w :
  interview_path me w
    (on_thread_ready me main_color utcnow get_channel w).1
    (on_thread_ready me main_color utcnow get_channel w).2.
Proof.
  destruct (truthy (default ∅ (db w !! "config") !! "questions")) eqn:Ht.
  2: { rewrite on_thread_ready_disabled by done. by apply path_disabled. }
  destruct (db w !! "config") as [config|] eqn:Hdb;
    [|simpl in Ht; by rewrite lookup_empty in Ht].
  simpl in Ht. destruct (config !! "questions") as [questions|] eqn:Hq; [|done].
  simpl in Ht.
  destruct (inbox_split (length (iter questions)) (inbox w))
    as [(ms & rest & Hlen & Hin)|(ms & tail & Hlen & Hin & Hhd)].
  - rewrite (on_thread_ready_answered me main_color utcnow get_channel
               w config questions ms rest) by done.
    by apply (path_answered _ _ config questions ms rest).
  - rewrite (on_thread_ready_aborted me main_color utcnow get_channel
               w config questions ms tail) by done.
    by apply (path_aborted _ _ config questions ms tail).
Qed.

Ltac run_cases w :=
  let Hp := fresh "Hp" in
  pose proof (on_thread_ready_runs w) as Hp;
  destruct (on_thread_ready me main_color utcnow get_channel w) as [r w'];
  simpl in Hp |- *;
  destruct Hp as
    [Ht
    |config questions ms tail Hdb Hq Hb Hlen Hin Hhd
    |config questions ms rest Hdb Hq Hb Hlen Hin].

Lemma said_is_reply config key x :
  x ∈ said me config key → ∃ v, x = ThreadReply me v.
Proof.
  unfold said. destruct (config !! key) as [v|]; [destruct (bool_obj v)|];
    intros Hx; try by apply elem_of_nil in Hx.
  apply list_elem_of_singleton in Hx as ->. by exists v.
Qed.

Lemma asked_is_reply qs x :
  x ∈ asked me qs → ∃ q, x = ThreadReply me (PStr q).
Proof.
  unfold asked. intros (q & -> & _)%list_elem_of_fmap. by exists q.
Qed.

Lemma said_calls config key : Forall interview_call (said me config key).
Proof.
  apply Forall_forall. by intros x (v & ->)%said_is_reply.
Qed.

Lemma asked_calls qs : Forall interview_call (asked me qs).
Proof.
  apply Forall_forall. by intros x (q & ->)%asked_is_reply.
Qed.

Ltac trace_eq :=
  cbn [trace emits emit with_inbox with_category];
  rewrite <- ?app_assoc; reflexivity.

Ltac calls :=
  rewrite ?Forall_app;
  repeat split; auto using said_calls, asked_calls; by repeat constructor.

(** X4: no run of [on_thread_ready] writes to the database or sends
    anything to an operator: the database is afterwards what it was,
    and every call made goes to the thread, its channel, the log or the
    clock. *)
Theorem interview_never_writes w :
  let w' := (on_thread_ready me main_color utcnow get_channel w).2 in
  db w' = db w ∧ ∃ es, trace w' = trace w ++ es ∧ Forall interview_call es.
Proof.
  run_cases w; (split; [done|]).
  - exists []. by rewrite app_nil_r.
  - eexists. split; [trace_eq|calls].
  - eexists. split; [trace_eq|calls].
Qed.

(** X5: a timeout is handled inside [on_thread_ready]: no run ends in
    [TimeoutError]. *)
Theorem interview_handles_timeout w :
  (on_thread_ready me main_color utcnow get_channel w).1 ≠ Raise TimeoutError.
Proof. run_cases w; discriminate. Qed.

Lemma configured_questions_enabled w config questions :
  db w !! "config" = Some config → config !! "questions" = Some questions →
  bool_obj questions = true → configured_questions w = iter questions.
Proof. intros Hdb Hq Hb. unfold configured_questions. by rewrite Hdb, Hq, Hb. Qed.

(** X6: a run of [on_thread_ready] takes at most one outcome of the
    inbox per configured question, from the front, and leaves the rest
    of the inbox as it is. *)
Theorem interview_reads_one_reply_per_question w :
  ∃ taken,
    inbox w = taken ++ inbox (on_thread_ready me main_color utcnow get_channel w).2
    ∧ (length taken ≤ length (configured_questions w))%nat.
Proof.
  run_cases w;
    try rewrite (configured_questions_enabled w config questions) by done.
  - exists []. split; [done|]. simpl. lia.
  - exists ((Some <$> ms) ++ take 1 tail). split.
    + simpl. by rewrite <- app_assoc, take_drop.
    + rewrite length_app, length_fmap, length_take. lia.
  - exists (Some <$> ms). split; [done|]. rewrite length_fmap. lia.
Qed.

Ltac new_calls Htr es :=
  cbn [trace emits emit with_inbox with_category] in Htr;
  rewrite <- ?app_assoc in Htr; apply app_inv_head in Htr; subst es.

Ltac member H :=
  repeat match type of H with
  | _ ∈ _ ++ _ => apply elem_of_app in H as [H|H]
  | _ ∈ _ :: _ => apply elem_of_cons in H as [H|H]
  | _ ∈ [] => by apply elem_of_nil in H
  | _ ∈ said _ _ _ => apply said_is_reply in H as [? H]
  | _ ∈ asked _ _ => apply asked_is_reply in H as [? H]
  | _ = _ => discriminate H
  end.

(** X7: the thread is closed only by the handler of a timeout.  In any
    run in which [thread.close] is called, it is called by the bot with
    the inactivity reason, it is the last call of the run, the run
    returns normally, and no embed is sent, nothing is pinned and the
    channel keeps its category. *)
Theorem close_only_after_timeout w es closer reason :
  let run := on_thread_ready me main_color utcnow get_channel w in
  trace run.2 = trace w ++ es → ThreadClose closer reason ∈ es →
  run.1 = Ok tt
  ∧ closer = me
  ∧ reason = "Closed due to inactivity and not responding to questions."
  ∧ last es = Some (ThreadClose closer reason)
  ∧ (∀ e, (ChannelSend e ∉ es) ∧ (Pin e ∉ es))
  ∧ thread_category run.2 = thread_category w
  ∧ permissions_synced run.2 = permissions_synced w.
Proof.
  run_cases w; intros Htr Hclose.
  - rewrite <- (app_nil_r (trace w)) in Htr at 1.
    apply app_inv_head in Htr. subst es. by apply elem_of_nil in Hclose.
  - new_calls Htr es. split_and!; try done.
    + member Hclose. by injection Hclose.
    + member Hclose. by injection Hclose.
    + rewrite app_assoc, last_snoc. member Hclose. by rewrite Hclose.
    + intros e. split; intros He; member He.
  - new_calls Htr es. member Hclose.
Qed.

(** X8: [on_thread_ready] never moves the thread channel.  After
    every run the category and the permissions of the channel are what
    they were, and among the calls of the run there is neither an edit
    of the channel nor the warning of the Relocate step: lines 91-95
    are never run. *)
Theorem channel_is_never_moved w es :
  let run := on_thread_ready me main_color utcnow get_channel w in
  trace run.2 = trace w ++ es →
  thread_category run.2 = thread_category w
  ∧ permissions_synced run.2 = permissions_synced w
  ∧ ∀ c sync text, (ChannelEdit c sync ∉ es) ∧ (LogWarning text ∉ es).
Proof.
  run_cases w; intros Htr.
  - rewrite <- (app_nil_r (trace w)) in Htr at 1.
    apply app_inv_head in Htr. subst es.
    split_and!; try done. intros c sync text. split; apply not_elem_of_nil.
  - new_calls Htr es. split_and!; try done.
    intros c sync text. split; intros He; member He.
  - new_calls Htr es. split_and!; try done.
    intros c sync text. split; intros He; member He.
Qed.

(** X9: when every question has been answered and the author of the
    last reply has no avatar, the run raises [AttributeError] right
    after the pause: every question has been sent, but no embed is
    sent, nothing is pinned, no outro follows and the channel is not
    moved. *)
Theorem missing_avatar_stops_the_summary w config questions ms rest lm :
  db w !! "config" = Some config →
  config !! "questions" = Some questions → bool_obj questions = true →
  length ms = length (iter questions) →
  inbox w = (Some <$> ms) ++ rest →
  last ms = Some lm → avatar (author lm) = None →
  let run := on_thread_ready me main_color utcnow get_channel w in
  run.1 = Raise AttributeError
  ∧ trace run.2 =
    trace w ++ said me config "intro" ++ asked me (iter questions) ++ [Sleep 1]
  ∧ thread_category run.2 = thread_category w
  ∧ db run.2 = db w.
Proof.
  intros Hdb Hq Hb Hlen Hin Hlast Ha run. subst run.
  rewrite (on_thread_ready_answered me main_color utcnow get_channel
             w config questions ms rest) by done.
  cbn [fst snd trace emits with_inbox thread_category db].
  by rewrite <- ?app_assoc.
Qed.

(** C9 (the code at the failing input): whenever every question has
    been answered, [on_thread_ready] sends the intro and the questions,
    pauses, and raises [AttributeError] at line 83, where the author of
    the last reply is asked for [get]; the embed it has built is
    dropped.  And in no run at all is an embed sent or a message
    pinned. *)
Theorem summary_is_never_sent :
  (∀ w config questions ms rest,
     db w !! "config" = Some config →
     config !! "questions" = Some questions → bool_obj questions = true →
     length ms = length (iter questions) →
     inbox w = (Some <$> ms) ++ rest →
     let run := on_thread_ready me main_color utcnow get_channel w in
     run.1 = Raise AttributeError
     ∧ trace run.2 =
       trace w ++ said me config "intro" ++ asked me (iter questions) ++ [Sleep 1])
  ∧ (∀ w es e,
       trace (on_thread_ready me main_color utcnow get_channel w).2 = trace w ++ es →
       (ChannelSend e ∉ es) ∧ (Pin e ∉ es)).
Proof.
  split.
  - intros w config questions ms rest Hdb Hq Hb Hlen Hin run. subst run.
    rewrite (on_thread_ready_answered me main_color utcnow get_channel
               w config questions ms rest) by done.
    cbn [fst snd trace emits with_inbox]. by rewrite <- ?app_assoc.
  - intros w es e. run_cases w; intros Htr.
    + rewrite <- (app_nil_r (trace w)) in Htr at 1.
      apply app_inv_head in Htr. subst es. split; apply not_elem_of_nil.
    + new_calls Htr es. split; intros He; member He.
    + new_calls Htr es. split; intros He; member He.
Qed.

(** C7 (the code at the failing input): in an interview in which every
    question is answered and [move_to] holds the text of an integer,
    the run raises [AttributeError] at line 83 and stops after the
    pause: the channel keeps its category and its permissions, whether
    [get_channel] knows the category or not.  The Relocate step of
    lines 91-95, had it been reached, would have moved the channel with
    [sync_permissions=True] or logged the warning. *)
Theorem relocation_is_never_reached w config questions ms rest s n :
  db w !! "config" = Some config →
  config !! "questions" = Some questions → bool_obj questions = true →
  length ms = length (iter questions) →
  inbox w = (Some <$> ms) ++ rest →
  config !! "move_to" = Some (PStr s) → Py.int s = Some n →
  let run := on_thread_ready me main_color utcnow get_channel w in
  run.1 = Raise AttributeError
  ∧ trace run.2 =
    trace w ++ said me config "intro" ++ asked me (iter questions) ++ [Sleep 1]
  ∧ thread_category run.2 = thread_category w
  ∧ permissions_synced run.2 = permissions_synced w
  ∧ (∀ c, get_channel n = Some c →
     ∀ w0, relocate get_channel config w0 =
           (Ok tt, with_category c true (emits [ChannelEdit c true] w0)))
  ∧ (get_channel n = None →
     ∀ w0, relocate get_channel config w0 =
           (Ok tt,
            emits [LogWarning "Move-to category does not exist. Not moving."] w0)).
Proof.
  intros Hdb Hq Hb Hlen Hin Hmv Hs run. subst run.
  rewrite (on_thread_ready_answered me main_color utcnow get_channel
             w config questions ms rest) by done.
  cbn [fst snd trace emits with_inbox thread_category permissions_synced].
  split_and!; [done|by rewrite <- ?app_assoc|done|done|..].
  - intros c Hc w0. by apply (relocate_found get_channel config s n c).
  - intros Hn w0. by apply (relocate_gone get_channel config s n).
Qed.


(** X2: when every reply arrives, the record the question loop builds
    has for keys the distinct question texts in the order of their
    first occurrence: a text asked several times has one entry, at the
    place of its first asking, and no key occurs twice. *)
Theorem record_keys_are_distinct_questions qs ms rest w :
  length ms = length qs → inbox w = (Some <$> ms) ++ rest →
  ∃ responses m w',
    ask_loop me qs [] None w = (Ok (Finished responses m), w')
    ∧ keys responses = distinct qs
    ∧ NoDup (keys responses).
Proof.
  intros Hlen Hin. eexists _, _, _. split.
  - by apply (ask_loop_finished me qs ms [] None rest).
  - by apply record_of_keys_distinct.
Qed.

(** X3: when every reply arrives, the record the question loop builds
    holds for each question text the answer derived from the reply to
    the last asking of that text. *)
Theorem record_holds_last_answer qs ms rest w i q reply :
  length ms = length qs → inbox w = (Some <$> ms) ++ rest →
  qs !! i = Some q → ms !! i = Some reply →
  (∀ j, (i < j)%nat → qs !! j ≠ Some q) →
  ∃ responses m w',
    ask_loop me qs [] None w = (Ok (Finished responses m), w')
    ∧ dict_get responses q = Some (answer_of reply).
Proof.
  intros Hlen Hin Hq Hm Hlast. eexists _, _, _. split.
  - by apply (ask_loop_finished me qs ms [] None rest).
  - by apply (record_of_get_last qs ms [] i).
Qed.

End Runs.

(** ** More on the commands *)

Lemma question_loop_timed_out todo : ∀ i qs ms tail w,
  (length ms < todo)%nat → Forall (fun m => content m ≠ "") ms →
  inbox w = (Some <$> ms) ++ tail →
  head tail = None ∨ head tail = Some None →
  question_loop todo i qs w =
  (Ok Returned,
   with_inbox (drop 1 tail)
     (emits (prompts i (S (length ms)) ++ [CtxSend "Timed out."]) w)).
Proof.
  induction todo as [|todo IH]; intros i qs ms tail w Hlen Hne Hin Hhd; [lia|].
  destruct ms as [|m ms].
  - rewrite (question_loop_timeout todo i qs tail w) by done.
    by rewrite prompts_S.
  - apply Forall_cons in Hne as [Hm Hne]. simpl in Hlen.
    rewrite (question_loop_reply todo i qs m ((Some <$> ms) ++ tail) w) by done.
    rewrite (IH _ _ ms tail); [|lia|done..].
    cbn [length]. rewrite (prompts_S i (S (length ms))). f_equal. same_world.
Qed.

(** X11: a timeout anywhere in [configquestions] persists nothing.
    When the wait for the count times out, or when the count and [k]
    question texts have arrived and the wait for the next text times
    out, the command sends "Timed out." as its last message and
    returns; the database is what it was and the texts collected so far
    are dropped. *)
Theorem configquestions_timeout_persists_nothing move_to :
  (∀ tail w,
     inbox w = tail → head tail = None ∨ head tail = Some None →
     configquestions move_to w =
     (Ok tt,
      with_inbox (drop 1 tail)
        (emits [CtxSend "How many questions do you have?"; CtxSend "Timed out."] w)))
  ∧ (∀ m count ms tail w,
       inbox w = Some m :: (Some <$> ms) ++ tail →
       Py.int (content m) = Some count →
       (length ms < range_len count)%nat →
       Forall (fun m => content m ≠ "") ms →
       head tail = None ∨ head tail = Some None →
       configquestions move_to w =
       (Ok tt,
        with_inbox (drop 1 tail)
          (emits (CtxSend "How many questions do you have?"
                  :: prompts 1 (S (length ms)) ++ [CtxSend "Timed out."]) w))).
Proof.
  split.
  - intros tail w. apply configquestions_timeout.
  - intros m count ms tail w Hin Hint Hlen Hne Hhd.
    rewrite (configquestions_count move_to m _ count w Hin Hint).
    rewrite (question_loop_timed_out (range_len count) 1 [] ms tail) by done.
    f_equal. same_world.
Qed.

Lemma config_text_timeout prompt complaint field move_to tail w :
  inbox w = tail → head tail = None ∨ head tail = Some None →
  config_text prompt complaint field move_to w =
  (Ok tt, with_inbox (drop 1 tail) (emits [CtxSend prompt; CtxSend "Timed out."] w)).
Proof.
  intros Hin Hhd.
  unfold config_text, bind, perform, try_except, wait_for_channel_response,
    wait_for. simpl.
  rewrite Hin. destruct tail as [|[x|] tail]; simpl in *.
  - f_equal. same_world.
  - by destruct Hhd.
  - f_equal. same_world.
Qed.

Lemma config_text_empty prompt complaint field move_to m rest w :
  inbox w = Some m :: rest → content m = "" →
  config_text prompt complaint field move_to w =
  (Ok tt, with_inbox rest (emits [CtxSend prompt; CtxSend complaint] w)).
Proof.
  intros Hin He.
  unfold config_text, bind, perform, try_except, wait_for_channel_response,
    wait_for. simpl.
  rewrite Hin, He. simpl. f_equal. same_world.
Qed.

(** X12: [configoutro] and [configintro] persist nothing without a
    text.  When the wait times out the command sends "Timed out.", and
    when the reply has no text it sends "Outro must be text-only." or
    "Intro must be text-only."; either way that is its last message and
    the database is what it was. *)
Theorem text_commands_refuse_without_text move_to w :
  (∀ tail, inbox w = tail → head tail = None ∨ head tail = Some None →
     configoutro move_to w =
       (Ok tt,
        with_inbox (drop 1 tail)
          (emits [CtxSend "Type the outro you want"; CtxSend "Timed out."] w))
     ∧ configintro move_to w =
       (Ok tt,
        with_inbox (drop 1 tail)
          (emits [CtxSend "Type the intro you want"; CtxSend "Timed out."] w)))
  ∧ (∀ m rest, inbox w = Some m :: rest → content m = "" →
       configoutro move_to w =
         (Ok tt,
          with_inbox rest
            (emits [CtxSend "Type the outro you want";
                    CtxSend "Outro must be text-only."] w))
       ∧ configintro move_to w =
         (Ok tt,
          with_inbox rest
            (emits [CtxSend "Type the intro you want";
                    CtxSend "Intro must be text-only."] w))).
Proof.
  split.
  - intros tail Hin Hhd.
    split; by apply (config_text_timeout _ _ _ move_to tail w).
  - intros m rest Hin He.
    split; by apply (config_text_empty _ _ _ move_to m rest w).
Qed.

Lemma upsert_two key f1 v1 f2 v2 (d : gmap string (gmap string pyobj)) :
  f1 ≠ f2 →
  ∃ doc, upsert key [(f1, v1); (f2, v2)] d !! key = Some doc
    ∧ doc !! f1 = Some v1 ∧ doc !! f2 = Some v2
    ∧ (∀ f, f ≠ f1 → f ≠ f2 →
         doc !! f = default {[ "_id" := PStr key ]} (d !! key) !! f)
    ∧ (∀ k, k ≠ key → upsert key [(f1, v1); (f2, v2)] d !! k = d !! k).
Proof.
  intros Hne. unfold upsert, apply_set. simpl.
  eexists. split; [apply lookup_insert_eq|]. split_and!.
  - by rewrite lookup_insert_ne, lookup_insert_eq.
  - by rewrite lookup_insert_eq.
  - intros f Hf1 Hf2. by rewrite !lookup_insert_ne.
  - intros k Hk. by rewrite lookup_insert_ne.
Qed.

(** X13: the happy path of [configquestions].  With a count that
    [int] reads as [n] and [n] non-empty replies, the command asks the
    prompts numbered 1 to [n] in order, persists once, confirms with
    "Saved" and leaves the rest of the inbox.  Afterwards the [config]
    document holds the replies' texts, in order, as [questions] and
    [str(move_to.id)] as [move_to]; its other fields and the other
    documents are as before. *)
Theorem configquestions_saves_the_replies move_to m count ms rest w :
  inbox w = Some m :: (Some <$> ms) ++ rest →
  Py.int (content m) = Some count →
  length ms = range_len count → Forall (fun m => content m ≠ "") ms →
  let run := configquestions move_to w in
  run.1 = Ok tt
  ∧ trace run.2 =
    trace w ++ CtxSend "How many questions do you have?"
    :: prompts 1 (length ms)
    ++ [DbSet "config"
          [("questions", PList (content <$> ms));
           ("move_to", PStr (Py.str (id move_to)))];
        CtxSend "Saved"]
  ∧ inbox run.2 = rest
  ∧ ∃ doc, db run.2 !! "config" = Some doc
      ∧ doc !! "questions" = Some (PList (content <$> ms))
      ∧ doc !! "move_to" = Some (PStr (Py.str (id move_to)))
      ∧ (∀ f, f ≠ "questions" → f ≠ "move_to" →
           doc !! f = default {[ "_id" := PStr "config" ]} (db w !! "config") !! f)
      ∧ (∀ k, k ≠ "config" → db run.2 !! k = db w !! k).
Proof.
  intros Hin Hint Hlen Hne run. subst run.
  rewrite (configquestions_saved move_to m count ms rest w) by done.
  rewrite <- Hlen. unfold saved. cbn [fst snd trace inbox db emits with_inbox with_db].
  split_and!; try done.
  by apply upsert_two.
Qed.

(** X14: the happy path of [configoutro] and [configintro].  With a
    non-empty reply the command persists once and confirms with
    "Saved"; afterwards the [config] document, created when there was
    none, holds the reply's text as [outro] (or [intro]) and
    [str(move_to.id)] as [move_to], its other fields and the other
    documents being as before. *)
Theorem text_commands_save_the_reply move_to m rest w :
  inbox w = Some m :: rest → content m ≠ "" →
  (let run := configoutro move_to w in
   run.1 = Ok tt
   ∧ trace run.2 =
     trace w ++ [CtxSend "Type the outro you want";
                 DbSet "config"
                   [("outro", PStr (content m));
                    ("move_to", PStr (Py.str (id move_to)))];
                 CtxSend "Saved"]
   ∧ ∃ doc, db run.2 !! "config" = Some doc
       ∧ doc !! "outro" = Some (PStr (content m))
       ∧ doc !! "move_to" = Some (PStr (Py.str (id move_to)))
       ∧ (∀ f, f ≠ "outro" → f ≠ "move_to" →
            doc !! f = default {[ "_id" := PStr "config" ]} (db w !! "config") !! f)
       ∧ (∀ k, k ≠ "config" → db run.2 !! k = db w !! k))
  ∧ (let run := configintro move_to w in
     run.1 = Ok tt
     ∧ trace run.2 =
       trace w ++ [CtxSend "Type the intro you want";
                   DbSet "config"
                     [("intro", PStr (content m));
                      ("move_to", PStr (Py.str (id move_to)))];
                   CtxSend "Saved"]
     ∧ ∃ doc, db run.2 !! "config" = Some doc
         ∧ doc !! "intro" = Some (PStr (content m))
         ∧ doc !! "move_to" = Some (PStr (Py.str (id move_to)))
         ∧ (∀ f, f ≠ "intro" → f ≠ "move_to" →
              doc !! f = default {[ "_id" := PStr "config" ]} (db w !! "config") !! f)
         ∧ (∀ k, k ≠ "config" → db run.2 !! k = db w !! k)).
Proof.
  intros Hin Hne. unfold configoutro, configintro.
  rewrite !(config_text_saved _ _ _ move_to m rest w) by done.
  unfold saved. cbn [fst snd trace inbox db emits with_inbox with_db].
  split; (split_and!; [done..|by apply upsert_two]).
Qed.

Lemma question_loop_ends todo : ∀ i qs w,
  ∃ r es inb,
    question_loop todo i qs w = (Ok r, with_inbox inb (emits es w))
    ∧ (r = Returned →
       ∃ es0 text, es = es0 ++ [CtxSend text]
         ∧ (text = "Timed out." ∨ text = "Question must be text-only.")).
Proof.
  induction todo as [|todo IH]; intros i qs w.
  - exists (Collected qs), [], (inbox w). split; [|done].
    simpl. unfold ret. f_equal. same_world.
  - destruct (inbox w) as [|[m|] tail] eqn:Hin.
    + eexists Returned, _, _. split.
      { apply (question_loop_timeout todo i qs [] w); [done|by left]. }
      intros _. eexists [_], _. split; [done|by left].
    + destruct (decide (content m = "")) as [He|Hne].
      * eexists Returned, _, _. split.
        { by apply (question_loop_empty_reply todo i qs m tail w). }
        intros _. eexists [_], _. split; [done|by right].
      * rewrite (question_loop_reply todo i qs m tail w) by done.
        destruct (IH (i + 1) (qs ++ [content m])
                    (with_inbox tail
                       (emit (CtxSend ("What's question #" +:+ Py.str i +:+ "?")) w)))
          as (r & es & inb & -> & Hr).
        exists r, (CtxSend ("What's question #" +:+ Py.str i +:+ "?") :: es), inb.
        split; [f_equal; same_world|].
        intros (es0 & text & -> & Htext)%Hr.
        by exists (CtxSend ("What's question #" +:+ Py.str i +:+ "?") :: es0), text.
    + eexists Returned, _, _. split.
      { apply (question_loop_timeout todo i qs (None :: tail) w); [done|by right]. }
      intros _. eexists [_], _. split; [done|by left].
Qed.

(** X15: the operator always gets an answer.  Every run of
    [configquestions], [configoutro] and [configintro] returns normally,
    and the last call it makes is a message to the operator that tells
    how it ended: "Saved", "Timed out.", or the command's own complaint
    ("Invalid input." and "Question must be text-only." for the
    questions, "Outro must be text-only.", "Intro must be text-only."). *)
Theorem commands_always_answer move_to w :
  (∃ es text,
     (configquestions move_to w).1 = Ok tt
     ∧ trace (configquestions move_to w).2 = trace w ++ es ++ [CtxSend text]
     ∧ text ∈ ["Saved"; "Timed out."; "Invalid input.";
               "Question must be text-only."])
  ∧ (∃ es text,
       (configoutro move_to w).1 = Ok tt
       ∧ trace (configoutro move_to w).2 = trace w ++ es ++ [CtxSend text]
       ∧ text ∈ ["Saved"; "Timed out."; "Outro must be text-only."])
  ∧ (∃ es text,
       (configintro move_to w).1 = Ok tt
       ∧ trace (configintro move_to w).2 = trace w ++ es ++ [CtxSend text]
       ∧ text ∈ ["Saved"; "Timed out."; "Intro must be text-only."]).
Proof.
  assert (∀ prompt complaint field,
    ∃ es text,
      (config_text prompt complaint field move_to w).1 = Ok tt
      ∧ trace (config_text prompt complaint field move_to w).2
        = trace w ++ es ++ [CtxSend text]
      ∧ text ∈ ["Saved"; "Timed out."; complaint]) as Htext.
  { intros prompt complaint field.
    destruct (inbox w) as [|[m|] tail] eqn:Hin.
    - rewrite (config_text_timeout prompt complaint field move_to [] w);
        [|done|by left].
      exists [CtxSend prompt], "Timed out.". split_and!; [done..|set_solver].
    - destruct (decide (content m = "")) as [He|Hne].
      + rewrite (config_text_empty prompt complaint field move_to m tail w) by done.
        exists [CtxSend prompt], complaint. split_and!; [done..|set_solver].
      + rewrite (config_text_saved prompt complaint field move_to m tail w) by done.
        eexists [_; _], "Saved". split_and!; [done..|set_solver].
    - rewrite (config_text_timeout prompt complaint field move_to (None :: tail) w);
        [|done|by right].
      exists [CtxSend prompt], "Timed out.". split_and!; [done..|set_solver]. }
  split; [|split; apply Htext].
  destruct (inbox w) as [|[m|] tail] eqn:Hin.
  - rewrite (configquestions_timeout move_to [] w); [|done|by left].
    eexists [_], "Timed out.". split_and!; [done..|set_solver].
  - destruct (Py.int (content m)) as [count|] eqn:Hint.
    + rewrite (configquestions_count move_to m tail count w) by done.
      destruct (question_loop_ends (range_len count) 1 []
                  (with_inbox tail
                     (emit (CtxSend "How many questions do you have?") w)))
        as (r & es & inb & -> & Hr).
      destruct r as [questions|].
      * eexists (CtxSend "How many questions do you have?" :: es ++ [_]), "Saved".
        split_and!; [done| |set_solver].
        cbn [snd trace emits emit with_inbox with_db].
        rewrite <- !app_assoc. simpl. by rewrite <- !app_assoc.
      * destruct (Hr eq_refl) as (es0 & text & -> & Htx).
        exists (CtxSend "How many questions do you have?" :: es0), text.
        split; [done|]. split; [|destruct Htx as [->| ->]; set_solver].
        cbn [snd trace emits emit with_inbox with_db].
        rewrite <- !app_assoc. simpl. by rewrite <- ?app_assoc.
    + rewrite (configquestions_invalid move_to m tail w) by done.
      eexists [_], "Invalid input.". split_and!; [done..|set_solver].
  - rewrite (configquestions_timeout move_to (None :: tail) w); [|done|by right].
    eexists [_], "Timed out.". split_and!; [done..|set_solver].
Qed.

(** ** Commands and interview together *)

(** X16: a count of zero or less switches the interview off.  After a
    run of [configquestions] whose count [int] reads as an integer not
    above zero, [on_thread_ready] on the resulting database returns at
    once: it makes no call and changes nothing. *)
Theorem count_zero_disables_the_interview
    me main_color utcnow get_channel move_to m rest count w w2 :
  inbox w = Some m :: rest → Py.int (content m) = Some count → count ≤ 0 →
  db w2 = db (configquestions move_to w).2 →
  on_thread_ready me main_color utcnow get_channel w2 = (Ok tt, w2).
Proof.
  intros Hin Hint Hle Hdb. apply on_thread_ready_disabled.
  rewrite Hdb.
  assert (range_len count = 0%nat) as Hz by (unfold range_len; lia).
  rewrite (configquestions_saved move_to m count [] rest w); try done.
  unfold saved. cbn [snd db emits with_inbox with_db].
  destruct (upsert_two "config" "questions" (PList [])
              "move_to" (PStr (Py.str (id move_to))) (db w))
    as (doc & Hdoc & Hqs & _); [done|].
  unfold questions_set. cbn [fmap list_fmap]. rewrite Hdoc. simpl.
  by rewrite Hqs.
Qed.

(** X17: an intro or an outro alone does not switch the interview on.
    When the database has no questions to ask, it still has none after
    any run of [configoutro] or [configintro], and [on_thread_ready] on
    the resulting database returns at once without a call. *)
Theorem text_commands_do_not_enable_the_interview
    me main_color utcnow get_channel move_to w w2 :
  truthy (default ∅ (db w !! "config") !! "questions") = false →
  db w2 = db (configoutro move_to w).2 ∨ db w2 = db (configintro move_to w).2 →
  on_thread_ready me main_color utcnow get_channel w2 = (Ok tt, w2).
Proof.
  intros Hoff Hdb. apply on_thread_ready_disabled.
  assert (∀ prompt complaint field,
    field ≠ "questions" → field ≠ "move_to" →
    truthy (default ∅ (db (config_text prompt complaint field move_to w).2
                         !! "config") !! "questions") = false) as Hkeep.
  { intros prompt complaint field Hfield Hfield'.
    destruct (config_text_cases prompt complaint field move_to w)
      as [(r & es & inb & -> & _)|(m & rest & _ & _ & ->)]; [done|].
    unfold saved. cbn [snd db emits with_inbox with_db].
    destruct (upsert_two "config" field (PStr (content m))
                "move_to" (PStr (Py.str (id move_to))) (db w))
      as (doc & Hdoc & _ & _ & Hother & _); [done|].
    unfold text_set. rewrite Hdoc. simpl. rewrite Hother by done.
    destruct (db w !! "config") as [old|]; [done|].
    simpl. by rewrite lookup_singleton_ne. }
  destruct Hdb as [-> | ->]; by apply Hkeep.
Qed.

(** X18: what [configquestions] saves is what [on_thread_ready] asks.
    After a run of [configquestions] that saved at least one question,
    an interview on the resulting database sends the stored intro, if
    any, and then the operator's texts as the questions, in order.
    When [k] replies arrive and the next wait times out, it has sent
    the first [k + 1] texts, closes the thread and returns; when every
    reply arrives, it has sent them all, pauses, and raises
    [AttributeError] at the Summarize step. *)
Theorem saved_questions_are_asked
    me main_color utcnow get_channel move_to m count ms rest w w2 :
  inbox w = Some m :: (Some <$> ms) ++ rest →
  Py.int (content m) = Some count →
  length ms = range_len count → Forall (fun m => content m ≠ "") ms →
  ms ≠ [] →
  db w2 = db (configquestions move_to w).2 →
  ∃ config,
    db w2 !! "config" = Some config
    ∧ config !! "questions" = Some (PList (content <$> ms))
    ∧ (∀ replies tail,
         (length replies < length ms)%nat →
         inbox w2 = (Some <$> replies) ++ tail →
         head tail = None ∨ head tail = Some None →
         on_thread_ready me main_color utcnow get_channel w2 =
         (Ok tt,
          with_inbox (drop 1 tail)
            (emits (said me config "intro"
                    ++ asked me (take (S (length replies)) (content <$> ms))
                    ++ [ThreadClose me inactivity]) w2)))
    ∧ (∀ replies rest2,
         length replies = length ms →
         inbox w2 = (Some <$> replies) ++ rest2 →
         on_thread_ready me main_color utcnow get_channel w2 =
         (Raise AttributeError,
          with_inbox rest2
            (emits (said me config "intro" ++ asked me (content <$> ms)
                    ++ [Sleep 1]) w2))).
Proof.
  intros Hin Hint Hlen Hne Hms Hdb.
  rewrite (configquestions_saved move_to m count ms rest w) in Hdb by done.
  unfold saved in Hdb. cbn [snd db emits with_inbox with_db] in Hdb.
  destruct (upsert_two "config" "questions" (PList (content <$> ms))
              "move_to" (PStr (Py.str (id move_to))) (db w))
    as (config & Hdoc & Hqs & _); [done|].
  unfold questions_set in Hdb. rewrite <- Hdb in Hdoc.
  assert (bool_obj (PList (content <$> ms)) = true) as Hb
    by by destruct ms.
  exists config. split_and!; [done..| |].
  - intros replies tail Hlt Hin2 Hhd.
    pose proof (on_thread_ready_aborted me main_color utcnow get_channel
                  w2 config (PList (content <$> ms)) replies tail Hdoc Hqs Hb)
      as Hrun.
    cbn [iter] in Hrun. apply Hrun; [by rewrite length_fmap|done..].
  - intros replies rest2 Hlen2 Hin2.
    pose proof (on_thread_ready_answered me main_color utcnow get_channel
                  w2 config (PList (content <$> ms)) replies rest2 Hdoc Hqs Hb)
      as Hrun.
    cbn [iter] in Hrun. apply Hrun; [by rewrite length_fmap|done].
Qed.

(** ** The further properties at sample inputs *)

Lemma answer_never_empty_witness : answer_of picture_msg ≠ "".
Proof. apply (answer_never_empty picture_msg). Defined.

Lemma record_keys_are_distinct_questions_witness :
  ∃ responses m w',
    ask_loop bot_user ["a"; "b"; "a"] [] None
      (world0 ∅ [Some (text_msg "x"); Some (text_msg "y"); Some (text_msg "z")])
    = (Ok (Finished responses m), w')
    ∧ keys responses = distinct ["a"; "b"; "a"]
    ∧ NoDup (keys responses).
Proof.
  apply (record_keys_are_distinct_questions bot_user ["a"; "b"; "a"]
           [text_msg "x"; text_msg "y"; text_msg "z"] []); reflexivity.
Defined.

Lemma record_holds_last_answer_witness :
  ∃ responses m w',
    ask_loop bot_user ["a"; "b"; "a"] [] None
      (world0 ∅ [Some (text_msg "x"); Some (text_msg "y"); Some (text_msg "z")])
    = (Ok (Finished responses m), w')
    ∧ dict_get responses "a" = Some (answer_of (text_msg "z")).
Proof.
  apply (record_holds_last_answer bot_user ["a"; "b"; "a"]
           [text_msg "x"; text_msg "y"; text_msg "z"] [] _ 2%nat);
    try reflexivity.
  intros [|[|[|j]]] Hj; try lia. discriminate.
Defined.

Lemma interview_handles_timeout_witness :
  (on_thread_ready bot_user 7 1000 channels
     (sample_world "42" [Some (text_msg "Ann"); None])).1 ≠ Raise TimeoutError.
Proof. apply interview_handles_timeout. Defined.

Lemma close_only_after_timeout_witness :
  let w := sample_world "42" [Some (text_msg "Ann"); None] in
  let run := on_thread_ready bot_user 7 1000 channels w in
  let es := [ThreadReply bot_user (PStr "Hello.");
             ThreadReply bot_user (PStr "Name?");
             ThreadReply bot_user (PStr "Why?");
             ThreadClose bot_user inactivity] in
  run.1 = Ok tt
  ∧ bot_user = bot_user
  ∧ inactivity = "Closed due to inactivity and not responding to questions."
  ∧ last es = Some (ThreadClose bot_user inactivity)
  ∧ (∀ e, (ChannelSend e ∉ es) ∧ (Pin e ∉ es))
  ∧ thread_category run.2 = thread_category w
  ∧ permissions_synced run.2 = permissions_synced w.
Proof.
  intros w run es.
  apply (close_only_after_timeout bot_user 7 1000 channels w es
           bot_user inactivity).
  - vm_compute. reflexivity.
  - subst es. do 3 apply list_elem_of_further. apply list_elem_of_here.
Defined.

Lemma missing_avatar_stops_the_summary_witness :
  let w := sample_world "42" [Some (bob_msg "Bob"); Some (bob_msg "Because.")] in
  let run := on_thread_ready bot_user 7 1000 channels w in
  run.1 = Raise AttributeError
  ∧ trace run.2 =
    trace w ++ said bot_user (sample_config "42") "intro"
    ++ asked bot_user (iter (PList two_questions)) ++ [Sleep 1]
  ∧ thread_category run.2 = thread_category w
  ∧ db run.2 = db w.
Proof.
  intros w run.
  apply (missing_avatar_stops_the_summary bot_user 7 1000 channels w
           (sample_config "42") (PList two_questions)
           [bob_msg "Bob"; bob_msg "Because."] [] (bob_msg "Because."));
    reflexivity.
Defined.

Lemma configquestions_timeout_persists_nothing_witness :
  let w := sample_world "42" [Some (text_msg "2"); Some (text_msg "Name?"); None] in
  configquestions lobby w =
  (Ok tt,
   with_inbox []
     (emits [CtxSend "How many questions do you have?";
             CtxSend "What's question #1?";
             CtxSend "What's question #2?";
             CtxSend "Timed out."] w)).
Proof.
  intros w.
  apply (proj2 (configquestions_timeout_persists_nothing lobby)
           (text_msg "2") 2 [text_msg "Name?"] [None] w).
  - reflexivity.
  - reflexivity.
  - unfold range_len. simpl. lia.
  - by repeat constructor.
  - by right.
Defined.

Lemma text_commands_refuse_without_text_witness :
  let w := sample_world "42" [Some picture_msg] in
  configoutro lobby w =
  (Ok tt,
   with_inbox []
     (emits [CtxSend "Type the outro you want";
             CtxSend "Outro must be text-only."] w)).
Proof.
  intros w.
  apply (proj2 (text_commands_refuse_without_text lobby w) picture_msg []);
    reflexivity.
Defined.

Lemma configquestions_saves_the_replies_witness :
  let w := world0 ∅ [Some (text_msg "2"); Some (text_msg "Name?");
                     Some (text_msg "Why?"); Some (text_msg "later")] in
  let run := configquestions lobby w in
  run.1 = Ok tt
  ∧ trace run.2 =
    [CtxSend "How many questions do you have?";
     CtxSend "What's question #1?"; CtxSend "What's question #2?";
     DbSet "config" [("questions", PList ["Name?"; "Why?"]); ("move_to", PStr "42")];
     CtxSend "Saved"]
  ∧ inbox run.2 = [Some (text_msg "later")].
Proof.
  intros w run.
  destruct (configquestions_saves_the_replies lobby (text_msg "2") 2
              [text_msg "Name?"; text_msg "Why?"] [Some (text_msg "later")] w)
    as (Hok & Htr & Hin & _).
  - reflexivity.
  - reflexivity.
  - reflexivity.
  - by repeat constructor.
  - subst run. split; [exact Hok|]. split; [|exact Hin]. rewrite Htr. reflexivity.
Defined.

Lemma text_commands_save_the_reply_witness :
  let w := world0 ∅ [Some (text_msg "Welcome.")] in
  ∃ doc, db (configintro lobby w).2 !! "config" = Some doc
    ∧ doc !! "intro" = Some (PStr "Welcome.")
    ∧ doc !! "move_to" = Some (PStr "42")
    ∧ doc !! "_id" = Some (PStr "config").
Proof.
  intros w.
  destruct (proj2 (text_commands_save_the_reply lobby (text_msg "Welcome.") [] w
                     eq_refl ltac:(discriminate)))
    as (_ & _ & doc & Hdoc & Hintro & Hmv & Hother & _).
  exists doc. split; [exact Hdoc|]. split; [exact Hintro|]. split; [exact Hmv|].
  rewrite Hother by discriminate. reflexivity.
Defined.

Lemma count_zero_disables_the_interview_witness :
  let w := sample_world "42" [Some (text_msg "0")] in
  let w2 := world0 (db (configquestions lobby w).2) [Some (text_msg "Ann")] in
  on_thread_ready bot_user 7 1000 channels w2 = (Ok tt, w2).
Proof.
  intros w w2.
  apply (count_zero_disables_the_interview bot_user 7 1000 channels lobby
           (text_msg "0") [] 0 w w2); [reflexivity|reflexivity|lia|reflexivity].
Defined.

Lemma text_commands_do_not_enable_the_interview_witness :
  let w := world0 ∅ [Some (text_msg "Welcome.")] in
  let w2 := world0 (db (configintro lobby w).2) [Some (text_msg "Ann")] in
  on_thread_ready bot_user 7 1000 channels w2 = (Ok tt, w2).
Proof.
  intros w w2.
  apply (text_commands_do_not_enable_the_interview bot_user 7 1000 channels
           lobby w w2).
  - reflexivity.
  - right. reflexivity.
Defined.

Lemma saved_questions_are_asked_witness :
  let w := world0 ∅ [Some (text_msg "2"); Some (text_msg "Name?");
                     Some (text_msg "Why?")] in
  let w2 := world0 (db (configquestions lobby w).2)
              [Some (text_msg "Ann"); None] in
  ∃ config,
    db w2 !! "config" = Some config
    ∧ on_thread_ready bot_user 7 1000 channels w2 =
      (Ok tt,
       with_inbox []
         (emits (said bot_user config "intro"
                 ++ [ThreadReply bot_user (PStr "Name?");
                     ThreadReply bot_user (PStr "Why?");
                     ThreadClose bot_user inactivity]) w2)).
Proof.
  intros w w2.
  destruct (saved_questions_are_asked bot_user 7 1000 channels lobby
              (text_msg "2") 2 [text_msg "Name?"; text_msg "Why?"] [] w w2)
    as (config & Hdoc & _ & Habort & _).
  - reflexivity.
  - reflexivity.
  - reflexivity.
  - by repeat constructor.
  - discriminate.
  - reflexivity.
  - exists config. split; [exact Hdoc|].
    apply (Habort [text_msg "Ann"] [None]).
    + simpl. lia.
    + reflexivity.
    + by right.
Defined.

Lemma channel_is_never_moved_witness :
  let w := sample_world "42" [Some (text_msg "Ann"); Some picture_msg] in
  let run := on_thread_ready bot_user 7 1000 channels w in
  thread_category run.2 = thread_category w
  ∧ permissions_synced run.2 = permissions_synced w
  ∧ ∀ c sync text,
      (ChannelEdit c sync ∉ [ThreadReply bot_user (PStr "Hello.");
                             ThreadReply bot_user (PStr "Name?");
                             ThreadReply bot_user (PStr "Why?"); Sleep 1])
      ∧ (LogWarning text ∉ [ThreadReply bot_user (PStr "Hello.");
                            ThreadReply bot_user (PStr "Name?");
                            ThreadReply bot_user (PStr "Why?"); Sleep 1]).
Proof.
  intros w run.
  apply (channel_is_never_moved bot_user 7 1000 channels w).
  vm_compute. reflexivity.
Defined.

(** ** The defect of line 83 at sample inputs *)

(** Two questions, both answered, an existing category to move to. *)
Lemma summary_is_never_sent_witness :
  let w := sample_world "42" [Some (text_msg "Ann"); Some picture_msg] in
  let run := on_thread_ready bot_user 7 1000 channels w in
  run.1 = Raise AttributeError
  ∧ trace run.2 =
    [ThreadReply bot_user (PStr "Hello.");
     ThreadReply bot_user (PStr "Name?");
     ThreadReply bot_user (PStr "Why?"); Sleep 1].
Proof.
  intros w run.
  destruct (proj1 (summary_is_never_sent bot_user 7 1000 channels) w
              (sample_config "42") (PList two_questions)
              [text_msg "Ann"; picture_msg] []
              eq_refl eq_refl eq_refl eq_refl eq_refl)
    as [Hraise Htrace].
  split; [exact Hraise|]. subst run. rewrite Htrace. reflexivity.
Defined.

(** The same interview: category 42 exists, and the channel stays put. *)
Lemma relocation_is_never_reached_witness :
  let w := sample_world "42" [Some (text_msg "Ann"); Some picture_msg] in
  let run := on_thread_ready bot_user 7 1000 channels w in
  channels 42 = Some lobby
  ∧ run.1 = Raise AttributeError
  ∧ thread_category run.2 = None
  ∧ permissions_synced run.2 = false.
Proof.
  intros w run.
  destruct (relocation_is_never_reached bot_user 7 1000 channels w
              (sample_config "42") (PList two_questions)
              [text_msg "Ann"; picture_msg] [] "42" 42
              eq_refl eq_refl eq_refl eq_refl eq_refl eq_refl eq_refl)
    as (Hraise & _ & Hcat & Hsync & _).
  split; [reflexivity|]. split; [exact Hraise|]. split.
  - subst run. rewrite Hcat. reflexivity.
  - subst run. rewrite Hsync. reflexivity.
Defined.

